(** * atscheck: App Transport Security audit of an .ipa archive

    A shallow embedding of [atscheck.py] and the properties of its three
    stages: the archive member locator ([find_all_info_plists]), the
    evaluator of one decoded manifest ([summarize_pl]) and the driver that
    turns the summaries into a process exit status ([run]).

    Modelling conventions.
    - A Python [str] is a Rocq [string], taken by its UTF-8 bytes: the
      comparison used by [sorted] and the literal characters of the three
      path patterns (all ASCII) behave the same on bytes as on code points.
    - A decoded property list is a [value], with one constructor for each
      type that [plistlib] returns: booleans, integers, reals, strings,
      arrays, dictionaries with string keys, and the data ([bytes]), date
      ([datetime]) and UID nodes, which [json.dumps] does not accept.
    - A Python [dict] is a [gmap string value]: keys are unique, which is
      what lets [sorted(exc.items())] compare keys only.
    - [None] is [None : option value]; a property list never holds it, so
      "key absent" and "[dict.get] returned [None]" coincide.
    - An exception is a value of [exn]; code that may raise returns a
      [result].
    - Writing to standard output and standard error is taken to succeed:
      the streams accept every string that [print] is given. *)

From Stdlib Require Import QArith Ascii.
From stdpp Require Import gmap strings list fin_maps sorting.

Local Set Warnings "-register-all".
Local Open Scope string_scope.
Local Open Scope list_scope.

(** ** Python values *)

Inductive value : Type :=
  | VBool (b : bool)
  | VInt (z : Z)
  | VReal (q : Q)
  | VStr (s : string)
  | VList (l : list value)
  | VDict (m : gmap string value)
  | VData (b : string)      (* [bytes] *)
  | VDate (t : Z)           (* [datetime.datetime], as a time stamp *)
  | VUID (n : Z).           (* [plistlib.UID] *)

(** Python's truth value testing, [bool(v)]: [False], zero, the empty string
    and the empty containers are false, everything else is true (a date and
    a UID define neither [__bool__] nor [__len__]). *)
Definition truthy (v : value) : bool :=
  match v with
  | VBool b => b
  | VInt z => negb (Z.eqb z 0)
  | VReal q => negb (Qeq_bool q 0)
  | VStr s => negb (String.eqb s "")
  | VList l => match l with [] => false | _ :: _ => true end
  | VDict m => match map_to_list m with [] => false | _ :: _ => true end
  | VData b => negb (String.eqb b "")
  | VDate _ => true
  | VUID _ => true
  end.

(** [bool(x)] where [x] may be [None]. *)
Definition py_bool (o : option value) : bool :=
  match o with
  | None => false
  | Some v => truthy v
  end.

(** [a or b] on possibly-[None] operands: [a] when it is true, else [b]. *)
Definition py_or (a b : option value) : option value :=
  if py_bool a then a else b.

(** [v is True]. *)
Definition is_True (o : option value) : bool :=
  match o with
  | Some (VBool true) => true
  | _ => false
  end.

(** ** Exceptions *)

Inductive exn : Type :=
  | AttributeError     (* [.get] or [.items] on a value that is not a dict *)
  | FileNotFoundError
  | BadZipFile
  | OSError            (* any other error of [open], e.g. PermissionError *)
  | TypeError.         (* [json.dumps] on a value that is no JSON *)

Inductive result (A : Type) : Type :=
  | Ok (a : A)
  | Raise (e : exn).
Arguments Ok {A} a.
Arguments Raise {A} e.

#[global] Instance result_ret : MRet result := λ A a, Ok a.
#[global] Instance result_bind : MBind result := λ A B f r,
  match r with
  | Ok a => f a
  | Raise e => Raise e
  end.

Fixpoint mapM_result {A B : Type} (f : A → result B) (l : list A)
  : result (list B) :=
  match l with
  | [] => Ok []
  | a :: l' => b ← f a; bs ← mapM_result f l'; Ok (b :: bs)
  end.

(** ** Dictionary access on dynamically typed values *)

(** [v.get(k)]: only a dict has the method. *)
Definition dict_get (v : value) (k : string) : result (option value) :=
  match v with
  | VDict m => Ok (m !! k)
  | _ => Raise AttributeError
  end.

(** [v.get(k, d)]. *)
Definition dict_get_default (v : value) (k : string) (d : value)
  : result value :=
  o ← dict_get v k; Ok (default d o).

(** [a or b] on values. *)
Definition or_value (a b : value) : value :=
  if truthy a then a else b.

(** The order of [sorted] on [(key, value)] pairs.  The keys of a dict are
    pairwise different, so the comparison of two items is decided by their
    keys. *)
Definition item_le (x y : string * value) : Prop :=
  Is_true (String.leb x.1 y.1).

#[global] Instance item_le_dec : RelDecision item_le.
Proof. intros x y. unfold item_le. apply _. Defined.

(** [sorted(v.items())]. *)
Definition sorted_items (v : value) : result (list (string * value)) :=
  match v with
  | VDict m => Ok (merge_sort item_le (map_to_list m))
  | _ => Raise AttributeError
  end.

(** ** The evaluator: [summarize_pl] *)

Record top_level_t : Type := {
  NSAllowsArbitraryLoads : option value;
  NSAllowsArbitraryLoadsInWebContent : option value;
  NSAllowsArbitraryLoadsForMedia : option value;
}.

Record row : Type := {
  domain : string;
  NSExceptionAllowsInsecureHTTPLoads : option value;
  NSTemporaryExceptionAllowsInsecureHTTPLoads : option value;
  NSIncludesSubdomains : option value;
  NSRequiresCertificateTransparency : option value;
  NSExceptionMinimumTLSVersion : option value;
  NSTemporaryExceptionMinimumTLSVersion : option value;
  NSExceptionRequiresForwardSecrecy : option value;
  NSTemporaryExceptionRequiresForwardSecrecy : option value;
  effective_http_permitted : bool;
  MinimumTLSVersionEffective : option value;
}.

Record summary : Type := {
  top_level : top_level_t;
  domains : list row;
}.

(** The body of the loop over the exception domains. *)
Definition make_row (top : top_level_t) (item : string * value) : result row :=
  let '(dname, cfg) := item in
  a ← dict_get cfg "NSExceptionAllowsInsecureHTTPLoads";
  b ← dict_get cfg "NSTemporaryExceptionAllowsInsecureHTTPLoads";
  c ← dict_get cfg "NSIncludesSubdomains";
  d ← dict_get cfg "NSRequiresCertificateTransparency";
  e ← dict_get cfg "NSExceptionMinimumTLSVersion";
  f ← dict_get cfg "NSTemporaryExceptionMinimumTLSVersion";
  g ← dict_get cfg "NSExceptionRequiresForwardSecrecy";
  h ← dict_get cfg "NSTemporaryExceptionRequiresForwardSecrecy";
  let http_domain := py_bool a || py_bool b in
  let http_global := py_bool (NSAllowsArbitraryLoads top) in
  Ok {| domain := dname;
        NSExceptionAllowsInsecureHTTPLoads := a;
        NSTemporaryExceptionAllowsInsecureHTTPLoads := b;
        NSIncludesSubdomains := c;
        NSRequiresCertificateTransparency := d;
        NSExceptionMinimumTLSVersion := e;
        NSTemporaryExceptionMinimumTLSVersion := f;
        NSExceptionRequiresForwardSecrecy := g;
        NSTemporaryExceptionRequiresForwardSecrecy := h;
        effective_http_permitted := http_domain || http_global;
        MinimumTLSVersionEffective := py_or e f |}.

Definition summarize_pl (pl : value) : result summary :=
  ats0 ← dict_get_default pl "NSAppTransportSecurity" (VDict ∅);
  let ats := or_value ats0 (VDict ∅) in
  exc0 ← dict_get_default ats "NSExceptionDomains" (VDict ∅);
  let exc := or_value exc0 (VDict ∅) in
  t1 ← dict_get ats "NSAllowsArbitraryLoads";
  t2 ← dict_get ats "NSAllowsArbitraryLoadsInWebContent";
  t3 ← dict_get ats "NSAllowsArbitraryLoadsForMedia";
  let top := {| NSAllowsArbitraryLoads := t1;
                NSAllowsArbitraryLoadsInWebContent := t2;
                NSAllowsArbitraryLoadsForMedia := t3 |} in
  items ← sorted_items exc;
  rows ← mapM_result (make_row top) items;
  Ok {| top_level := top; domains := rows |}.

(** ** The locator: [find_all_info_plists] *)

(** [fnmatch.fnmatch(name, pat)] on a POSIX system (where [os.path.normcase]
    is the identity), for patterns without bracket expressions: [*] matches
    any run of characters, [/] included; [?] matches one character; any
    other character matches itself; the whole name must be consumed. *)
Fixpoint fnmatch_from (pat : string) : string → bool :=
  match pat with
  | EmptyString =>
      λ name, match name with EmptyString => true | String _ _ => false end
  | String c pat' =>
      if Ascii.eqb c "*"%char then
        fix star (name : string) : bool :=
          fnmatch_from pat' name ||
          match name with
          | EmptyString => false
          | String _ name' => star name'
          end
      else if Ascii.eqb c "?"%char then
        λ name, match name with
                | EmptyString => false
                | String _ name' => fnmatch_from pat' name'
                end
      else
        λ name, match name with
                | EmptyString => false
                | String d name' => Ascii.eqb c d && fnmatch_from pat' name'
                end
  end.

Definition fnmatch (name pat : string) : bool := fnmatch_from pat name.

Definition pats : list string :=
  [ "Payload/*.app/Info.plist";
    "Payload/**/*.app/Info.plist";
    "Payload/**/*.appex/Info.plist" ].

(** [any(fnmatch.fnmatch(name, p) for p in pats)]. *)
Definition matches_any (name : string) : bool :=
  existsb (fnmatch name) pats.

(** One turn of the loop that removes repeated paths; the state is the pair
    of [seen] and [ordered]. *)
Definition dedup_step (st : gset string * list string) (p : string)
  : gset string * list string :=
  if decide (p ∈ st.1) then st else (st.1 ∪ {[ p ]}, st.2 ++ [p]).

(** The locator proper; [names] is [z.namelist()]. *)
Definition find_all_info_plists (names : list string) : list string :=
  let out := List.filter matches_any names in
  (foldl dedup_step (∅, []) out).2.

(** ** The driver: [run] *)

(** What [parse_plist(z, path)] does with one member: it returns the decoded
    tree or raises (an unreadable member, a malformed payload); the message
    of the exception is kept for the warning. *)
Inductive decoded : Type :=
  | Decoded (pl : value)
  | DecodeFails (msg : string).

(** An open archive: the member names in archive order, and the outcome of
    reading and decoding each member. *)
Record archive : Type := {
  namelist : list string;
  parse_plist : string → decoded;
}.

(** What [zipfile.ZipFile(ipa_path)] does. *)
Inductive open_result : Type :=
  | Opened (z : archive)
  | OpenRaises (e : exn).

(** The lines written to the diagnostic stream. *)
Inductive diag : Type :=
  | InfoPlistNotFound
  | CouldNotParse (p : string) (msg : string)
  | ErrorOpeningIPA (e : exn).

(** How the process ends: [sys.exit(rc)], or an exception that nothing
    catches. *)
Inductive outcome : Type :=
  | Exit (rc : Z)
  | Uncaught (e : exn).

(** One element of [results]: the summary of a manifest with its path. *)
Record entry : Type := {
  info_plist : string;
  summary_of : summary;
}.

(** [except (zipfile.BadZipFile, FileNotFoundError)]. *)
Definition caught (e : exn) : bool :=
  match e with
  | BadZipFile | FileNotFoundError => true
  | _ => false
  end.

(** The loop over [plist_paths], with the diagnostic stream and [results]
    as state.  A member that fails to decode leaves a warning; an exception
    of [summarize_pl] leaves the loop. *)
Fixpoint parse_loop (z : archive) (paths : list string)
    (err : list diag) (results : list entry)
  : list diag * result (list entry) :=
  match paths with
  | [] => (err, Ok results)
  | p :: paths' =>
      match parse_plist z p with
      | DecodeFails msg =>
          parse_loop z paths' (err ++ [CouldNotParse p msg]) results
      | Decoded pl =>
          match summarize_pl pl with
          | Raise e => (err, Raise e)
          | Ok s =>
              parse_loop z paths' err
                (results ++ [{| info_plist := p; summary_of := s |}])
          end
      end
  end.

(** [if filter_domain:] on an argument that is a string or [None]. *)
Definition filter_given (filter_domain : option string) : bool :=
  match filter_domain with
  | None => false
  | Some f => negb (String.eqb f "")
  end.

(** [r["domains"] = [d for d in r["domains"] if d["domain"] == f]]. *)
Definition filter_entry (f : string) (r : entry) : entry :=
  {| info_plist := info_plist r;
     summary_of :=
       {| top_level := top_level (summary_of r);
          domains := List.filter (λ d, String.eqb (domain d) f)
                       (domains (summary_of r)) |} |}.

Definition apply_filter (filter_domain : option string) (results : list entry)
  : list entry :=
  if filter_given filter_domain then
    match filter_domain with
    | Some f => List.map (filter_entry f) results
    | None => results
    end
  else results.

(** [any(d["effective_http_permitted"] for r in results for d in r["domains"])]. *)
Definition insecure (results : list entry) : bool :=
  existsb (λ r, existsb effective_http_permitted (domains (summary_of r)))
    results.

(** [json.dumps] accepts [None], booleans, numbers, strings, and lists and
    dicts (with string keys) of what it accepts; on anything else, here a
    data, date or UID value, it raises [TypeError]. *)
Fixpoint json_ok (v : value) : bool :=
  match v with
  | VBool _ | VInt _ | VReal _ | VStr _ => true
  | VList l => forallb json_ok l
  | VDict m => map_fold (λ _ v' acc, json_ok v' && acc) true m
  | VData _ | VDate _ | VUID _ => false
  end.

Definition json_ok_opt (o : option value) : bool :=
  match o with
  | None => true
  | Some v => json_ok v
  end.

Definition json_ok_row (d : row) : bool :=
  json_ok_opt (NSExceptionAllowsInsecureHTTPLoads d)
  && json_ok_opt (NSTemporaryExceptionAllowsInsecureHTTPLoads d)
  && json_ok_opt (NSIncludesSubdomains d)
  && json_ok_opt (NSRequiresCertificateTransparency d)
  && json_ok_opt (NSExceptionMinimumTLSVersion d)
  && json_ok_opt (NSTemporaryExceptionMinimumTLSVersion d)
  && json_ok_opt (NSExceptionRequiresForwardSecrecy d)
  && json_ok_opt (NSTemporaryExceptionRequiresForwardSecrecy d)
  && json_ok_opt (MinimumTLSVersionEffective d).

Definition json_ok_summary (s : summary) : bool :=
  json_ok_opt (NSAllowsArbitraryLoads (top_level s))
  && json_ok_opt (NSAllowsArbitraryLoadsInWebContent (top_level s))
  && json_ok_opt (NSAllowsArbitraryLoadsForMedia (top_level s))
  && forallb json_ok_row (domains s).

(** [json.dumps({"ipa": ..., "results": results}, ...)] returns. *)
Definition json_dumps_ok (results : list entry) : bool :=
  forallb (λ r, json_ok_summary (summary_of r)) results.

(** [run]; [fs] says what opening each path gives.  The text printed on
    standard output is not part of the result (see [run_report] for the
    text mode); in JSON mode the serialization comes before the [return],
    outside the [try], and its [TypeError] escapes. *)
Definition run (fs : string → open_result) (ipa_path : string)
    (filter_domain : option string) (json_mode : bool) (color_mode : string)
  : list diag * outcome :=
  let handle (err : list diag) (e : exn) : list diag * outcome :=
    if caught e then (err ++ [ErrorOpeningIPA e], Exit 3)
    else (err, Uncaught e) in
  match fs ipa_path with
  | OpenRaises e => handle [] e
  | Opened z =>
      let plist_paths := find_all_info_plists (namelist z) in
      match plist_paths with
      | [] => ([InfoPlistNotFound], Exit 3)
      | _ :: _ =>
          match parse_loop z plist_paths [] [] with
          | (err, Raise e) => handle err e
          | (err, Ok results) =>
              let results := apply_filter filter_domain results in
              if json_mode
              then
                if json_dumps_ok results
                then (err, Exit (if insecure results then 2 else 0))
                else (err, Uncaught TypeError)
              else (err, Exit (if insecure results then 2 else 0))
          end
      end
  end.

(** ** Auxiliary notions used by the statements *)

Definition ATS : string := "NSAppTransportSecurity".
Definition EXC : string := "NSExceptionDomains".
Definition ARB : string := "NSAllowsArbitraryLoads".

(** The mapping that [x.get(k, {}) or {}] stands for, read off the result
    [o] of looking [k] up: an absent key and a false value give the empty
    mapping, a dict gives itself, and a true value that is not a dict gives
    nothing that has a [get]. *)
Definition as_mapping (o : option value) : option (gmap string value) :=
  match o with
  | None => Some ∅
  | Some (VDict m) => Some m
  | Some v => if truthy v then None else Some ∅
  end.

(** The three bundle-wide flags of a security section. *)
Definition tops (ats : gmap string value) : top_level_t :=
  {| NSAllowsArbitraryLoads := ats !! "NSAllowsArbitraryLoads";
     NSAllowsArbitraryLoadsInWebContent :=
       ats !! "NSAllowsArbitraryLoadsInWebContent";
     NSAllowsArbitraryLoadsForMedia := ats !! "NSAllowsArbitraryLoadsForMedia" |}.

(** The record of one domain whose configuration is the dict [cfg]. *)
Definition row_of (top : top_level_t) (dname : string)
    (cfg : gmap string value) : row :=
  let a := cfg !! "NSExceptionAllowsInsecureHTTPLoads" in
  let b := cfg !! "NSTemporaryExceptionAllowsInsecureHTTPLoads" in
  let e := cfg !! "NSExceptionMinimumTLSVersion" in
  let f := cfg !! "NSTemporaryExceptionMinimumTLSVersion" in
  {| domain := dname;
     NSExceptionAllowsInsecureHTTPLoads := a;
     NSTemporaryExceptionAllowsInsecureHTTPLoads := b;
     NSIncludesSubdomains := cfg !! "NSIncludesSubdomains";
     NSRequiresCertificateTransparency :=
       cfg !! "NSRequiresCertificateTransparency";
     NSExceptionMinimumTLSVersion := e;
     NSTemporaryExceptionMinimumTLSVersion := f;
     NSExceptionRequiresForwardSecrecy :=
       cfg !! "NSExceptionRequiresForwardSecrecy";
     NSTemporaryExceptionRequiresForwardSecrecy :=
       cfg !! "NSTemporaryExceptionRequiresForwardSecrecy";
     effective_http_permitted :=
       py_bool a || py_bool b || py_bool (NSAllowsArbitraryLoads top);
     MinimumTLSVersionEffective := py_or e f |}.

Definition is_dict (v : value) : bool :=
  match v with
  | VDict _ => true
  | _ => false
  end.

#[global] Instance result_fmap : FMap result := λ A B f r,
  match r with
  | Ok a => Ok (f a)
  | Raise e => Raise e
  end.

(** A flag in one of the three states the format intends for it:
    undeclared, explicit false, explicit true. *)
Definition bool_or_absent (o : option value) : Prop :=
  o = None ∨ ∃ b : bool, o = Some (VBool b).

(** The effective verdict of a record in the words of the specification:
    the OR of three tests for an explicit [true]. *)
Definition spec_effective_http_permitted (top : top_level_t) (d : row) : bool :=
  is_True (NSExceptionAllowsInsecureHTTPLoads d)
  || is_True (NSTemporaryExceptionAllowsInsecureHTTPLoads d)
  || is_True (NSAllowsArbitraryLoads top).

(** The effective minimum TLS version in the words of the specification:
    the canonical value if present, else the legacy value if present, else
    absent. *)
Definition spec_minimum_tls_effective (d : row) : option value :=
  match NSExceptionMinimumTLSVersion d with
  | Some v => Some v
  | None => NSTemporaryExceptionMinimumTLSVersion d
  end.

(** The trees on which [summarize_pl] returns: both sections stand for a
    mapping and every exception domain is configured by a dict. *)
Definition evaluable (pl : gmap string value) : bool :=
  match as_mapping (pl !! ATS) with
  | None => false
  | Some ats =>
      match as_mapping (ats !! EXC) with
      | None => false
      | Some exc => forallb (λ it, is_dict it.2) (map_to_list exc)
      end
  end.

(** A manifest with the exception domains [exc] and nothing else in its
    security section. *)
Definition manifest_with_domains (exc : gmap string value) : value :=
  VDict {[ ATS := VDict {[ EXC := VDict exc ]} ]}.

(** A domain whose insecure-HTTP flag is the string [NO] instead of a
    boolean. *)
Definition tree_string_flag : value :=
  manifest_with_domains
    {[ "example.com" :=
         VDict {[ "NSExceptionAllowsInsecureHTTPLoads" := VStr "NO" ]} ]}.

(** A security section that is a string, and an exception-domains entry
    that is a number. *)
Definition tree_section_string : gmap string value :=
  {[ ATS := VStr "x" ]}.
Definition tree_domains_number : gmap string value :=
  {[ ATS := VDict {[ EXC := VInt 1 ]} ]}.

(** A domain whose canonical minimum-TLS key holds the empty string while
    the legacy key holds a version, and the summary of its manifest. *)
Definition cfg_empty_canonical_tls : gmap string value :=
  {[ "NSExceptionMinimumTLSVersion" := VStr "";
     "NSTemporaryExceptionMinimumTLSVersion" := VStr "TLSv1.0" ]}.
Definition tree_empty_canonical_tls : value :=
  manifest_with_domains {[ "example.com" := VDict cfg_empty_canonical_tls ]}.
Definition summary_empty_canonical_tls : summary :=
  {| top_level := tops ∅;
     domains := [row_of (tops ∅) "example.com" cfg_empty_canonical_tls] |}.

(** A domain that switches plain HTTP on, in a section that declares
    nothing else, and the summary of its manifest. *)
Definition cfg_http_domain : gmap string value :=
  {[ "NSExceptionAllowsInsecureHTTPLoads" := VBool true ]}.
Definition ats_http_domain : gmap string value :=
  {[ EXC := VDict {[ "example.com" := VDict cfg_http_domain ]} ]}.
Definition tree_http_domain : gmap string value :=
  {[ ATS := VDict ats_http_domain ]}.
Definition row_http_domain : row :=
  row_of (tops ats_http_domain) "example.com" cfg_http_domain.
Definition summary_http_domain : summary :=
  {| top_level := tops ats_http_domain; domains := [row_http_domain] |}.

(** A pattern without wildcard characters. *)
Fixpoint literal (pat : string) : bool :=
  match pat with
  | EmptyString => true
  | String c pat' =>
      negb (Ascii.eqb c "*"%char) && negb (Ascii.eqb c "?"%char) && literal pat'
  end.

(** *** The patterns read as the specification reads them

    A path is cut into segments at its slashes; [<name>] stays within one
    segment and [**] stands for zero or more whole segments. *)
Fixpoint segments (path : string) : list string :=
  match path with
  | EmptyString => [EmptyString]
  | String c path' =>
      if Ascii.eqb c "/"%char then EmptyString :: segments path'
      else match segments path' with
           | seg :: segs => String c seg :: segs
           | [] => [String c EmptyString]
           end
  end.

Fixpoint ends_with (suffix s : string) : bool :=
  String.eqb s suffix ||
  match s with
  | EmptyString => false
  | String _ s' => ends_with suffix s'
  end.

(** [Payload/<name>suffix/Info.plist] when [deep] is false and
    [Payload/**/<name>suffix/Info.plist] when it is true. *)
Definition spec_glob (suffix : string) (deep : bool) (path : string) : bool :=
  match segments path with
  | root :: rest =>
      String.eqb root "Payload" &&
      match reverse rest with
      | file :: bundle :: mids =>
          String.eqb file "Info.plist" && ends_with suffix bundle &&
          (deep || match mids with [] => true | _ :: _ => false end)
      | _ => false
      end
  | [] => false
  end.

Definition spec_recognized (path : string) : bool :=
  spec_glob ".app" false path || spec_glob ".app" true path
  || spec_glob ".appex" true path.

(** An extension manifest with no segment between [Payload] and the
    bundle. *)
Definition top_level_appex (path : string) : bool :=
  spec_glob ".appex" false path.

Fixpoint slash_free (s : string) : bool :=
  match s with
  | EmptyString => true
  | String c s' => negb (Ascii.eqb c "/"%char) && slash_free s'
  end.

(** The directories [mids] written as a path prefix, each followed by a
    slash. *)
Fixpoint dirs (mids : list string) : string :=
  match mids with
  | [] => EmptyString
  | m :: mids' => m +:+ "/" +:+ dirs mids'
  end.

Fixpoint last_char (s : string) : option ascii :=
  match s with
  | EmptyString => None
  | String c s' =>
      match s' with
      | EmptyString => Some c
      | String _ _ => last_char s'
      end
  end.

(** *** Notions about a run *)


(** The warnings that the members failing to decode leave. *)
Fixpoint warnings (z : archive) (paths : list string) : list diag :=
  match paths with
  | [] => []
  | p :: paths' =>
      match parse_plist z p with
      | DecodeFails msg => CouldNotParse p msg :: warnings z paths'
      | Decoded _ => warnings z paths'
      end
  end.

(** The summaries of the members that decode, in order; the first
    evaluation that raises decides the result. *)
Fixpoint entries (z : archive) (paths : list string) : result (list entry) :=
  match paths with
  | [] => Ok []
  | p :: paths' =>
      match parse_plist z p with
      | DecodeFails _ => entries z paths'
      | Decoded pl =>
          s ← summarize_pl pl; es ← entries z paths';
          Ok ({| info_plist := p; summary_of := s |} :: es)
      end
  end.

(** A record survives the domain filter. *)
Definition kept (filter_domain : option string) (d : row) : bool :=
  if filter_given filter_domain then
    match filter_domain with
    | Some f => String.eqb (domain d) f
    | None => true
    end
  else true.


(** The summary of a manifest that declares nothing. *)
Definition empty_summary : summary :=
  {| top_level := {| NSAllowsArbitraryLoads := None;
                     NSAllowsArbitraryLoadsInWebContent := None;
                     NSAllowsArbitraryLoadsForMedia := None |};
     domains := [] |}.

(** An archive with the single member [Payload/App.app/Info.plist], which
    decodes to [pl], and the file system that holds it under every path. *)
Definition single_manifest (pl : value) : archive :=
  {| namelist := ["Payload/App.app/Info.plist"];
     parse_plist := λ _, Decoded pl |}.
Definition fs_single (pl : value) : string → open_result :=
  λ _, Opened (single_manifest pl).

(** An archive of three manifests of which the second one is corrupt. *)
Definition one_corrupt_of_three : archive :=
  {| namelist := [ "Payload/App.app/Info.plist";
                   "Payload/App.app/PlugIns/Bad.appex/Info.plist";
                   "Payload/App.app/PlugIns/Good.appex/Info.plist" ];
     parse_plist := λ p,
       if String.eqb p "Payload/App.app/PlugIns/Bad.appex/Info.plist"
       then DecodeFails "Invalid file"
       else if String.eqb p "Payload/App.app/Info.plist"
       then Decoded (VDict tree_http_domain)
       else Decoded (VDict ∅) |}.

(** An archive whose two manifests both fail to decode. *)
Definition all_corrupt : archive :=
  {| namelist := [ "Payload/App.app/Info.plist";
                   "Payload/App.app/PlugIns/Ext.appex/Info.plist" ];
     parse_plist := λ _, DecodeFails "Invalid file" |}.

(** *** Further examples *)

(** A section that allows arbitrary loads for the whole bundle and names no
    exception domain. *)
Definition tree_global_only : gmap string value :=
  {[ ATS := VDict {[ ARB := VBool true ]} ]}.

(** Two exception domains, written in the order b, a. *)
Definition exc_two_domains : gmap string value :=
  {[ "b.example" := VDict cfg_http_domain;
     "a.example" := VDict ∅ ]}.
Definition ats_two_domains : gmap string value :=
  {[ EXC := VDict exc_two_domains ]}.
Definition tree_two_domains : gmap string value :=
  {[ ATS := VDict ats_two_domains ]}.
Definition summary_two_domains : summary :=
  {| top_level := tops ats_two_domains;
     domains := [ row_of (tops ats_two_domains) "a.example" ∅;
                  row_of (tops ats_two_domains) "b.example" cfg_http_domain ] |}.

(** The keys the evaluator reads, as the source lists them. *)
Definition ATS_TOP_KEYS : list string :=
  [ "NSAllowsArbitraryLoads";
    "NSAllowsArbitraryLoadsInWebContent";
    "NSAllowsArbitraryLoadsForMedia" ].
Definition DOMAIN_KEYS : list string :=
  [ "NSExceptionAllowsInsecureHTTPLoads";
    "NSTemporaryExceptionAllowsInsecureHTTPLoads";
    "NSIncludesSubdomains";
    "NSRequiresCertificateTransparency";
    "NSExceptionMinimumTLSVersion";
    "NSTemporaryExceptionMinimumTLSVersion";
    "NSExceptionRequiresForwardSecrecy";
    "NSTemporaryExceptionRequiresForwardSecrecy" ].

(** The raw flags of a record, in the order of [DOMAIN_KEYS]. *)
Definition raw_flags (d : row) : list (option value) :=
  [ NSExceptionAllowsInsecureHTTPLoads d;
    NSTemporaryExceptionAllowsInsecureHTTPLoads d;
    NSIncludesSubdomains d;
    NSRequiresCertificateTransparency d;
    NSExceptionMinimumTLSVersion d;
    NSTemporaryExceptionMinimumTLSVersion d;
    NSExceptionRequiresForwardSecrecy d;
    NSTemporaryExceptionRequiresForwardSecrecy d ].

(** The bundle-wide flags of a summary, in the order of [ATS_TOP_KEYS]. *)
Definition top_flags (t : top_level_t) : list (option value) :=
  [ NSAllowsArbitraryLoads t;
    NSAllowsArbitraryLoadsInWebContent t;
    NSAllowsArbitraryLoadsForMedia t ].

(** A manifest whose root is an array instead of a dict. *)
Definition tree_array_root : value := VList [VStr "x"].

(** The members of [one_corrupt_of_three] in another order, one of them
    listed twice. *)
Definition one_corrupt_of_three_shuffled : archive :=
  {| namelist := [ "Payload/App.app/PlugIns/Good.appex/Info.plist";
                   "Payload/App.app/Info.plist";
                   "Payload/App.app/PlugIns/Bad.appex/Info.plist";
                   "Payload/App.app/Info.plist" ];
     parse_plist := parse_plist one_corrupt_of_three |}.

(** ** Presentation: colours and the text report

    The escape character opens every ANSI sequence. *)
Definition ESC : string := String "027"%char EmptyString.
Definition RESET : string := ESC +:+ "[0m".
Definition BOLD : string := ESC +:+ "[1m".
Definition DIM : string := ESC +:+ "[2m".
Definition CYAN : string := ESC +:+ "[36m".
Definition YEL : string := ESC +:+ "[33m".
Definition GRN : string := ESC +:+ "[32m".
Definition RED : string := ESC +:+ "[31m".
Definition BLU : string := ESC +:+ "[34m".

(** [wants_color(mode)]; [isatty] is [sys.stdout.isatty()] and [TERM] is
    [os.environ.get("TERM")]. *)
Definition wants_color (mode : string) (isatty : bool) (TERM : option string)
  : bool :=
  if String.eqb mode "always" then true
  else if String.eqb mode "never" then false
  else isatty &&
       match TERM with
       | None => false
       | Some t => negb (String.eqb t "dumb")
       end.

(** [v is False]. *)
Definition is_False (o : option value) : bool :=
  match o with
  | Some (VBool false) => true
  | _ => false
  end.

Definition c_bool (v : option value) (use_color : bool) : string :=
  if is_True v then
    if use_color then GRN +:+ "True" +:+ RESET else "True"
  else if is_False v then
    if use_color then RED +:+ "False" +:+ RESET else "False"
  else if use_color then DIM +:+ "None" +:+ RESET else "None".

(** [c_txt(s, col, use_color)] on a string [s]. *)
Definition c_txt (s col : string) (use_color : bool) : string :=
  if use_color then col +:+ s +:+ RESET else s.

Definition K (s : string) (use_color : bool) : string :=
  c_txt s BLU use_color.
Definition H (s : string) (use_color : bool) : string :=
  c_txt s (CYAN +:+ BOLD) use_color.
Definition DOM (s : string) (use_color : bool) : string :=
  c_txt s (YEL +:+ BOLD) use_color.

(** The line feed that ends the note about an empty domain list. *)
Definition LF : string := String "010"%char EmptyString.

(** The text that [run] prints for one domain record, one string for each
    call of [print].  [py_str] is Python's [str] on values, which renders
    the effective minimum TLS version. *)
Definition report_domain (py_str : value → string) (use_color : bool)
    (d : row) : list string :=
  let mtls := MinimumTLSVersionEffective d in
  let mtls_fmt :=
    match mtls with
    | Some v =>
        if truthy v then c_txt (py_str v) GRN use_color
        else if use_color then DIM +:+ "None" +:+ RESET else "None"
    | None => if use_color then DIM +:+ "None" +:+ RESET else "None"
    end in
  let eff_fmt :=
    if effective_http_permitted d then c_txt "True" GRN use_color
    else c_txt "False" RED use_color in
  [ "[" +:+ DOM (domain d) use_color +:+ "]";
    "  - " +:+ K "NSExceptionAllowsInsecureHTTPLoads" use_color +:+ ": "
      +:+ c_bool (NSExceptionAllowsInsecureHTTPLoads d) use_color;
    "  - " +:+ K "NSTemporaryExceptionAllowsInsecureHTTPLoads" use_color
      +:+ ": "
      +:+ c_bool (NSTemporaryExceptionAllowsInsecureHTTPLoads d) use_color;
    "  - " +:+ K "NSIncludesSubdomains" use_color +:+ ": "
      +:+ c_bool (NSIncludesSubdomains d) use_color;
    "  - " +:+ K "NSRequiresCertificateTransparency" use_color +:+ ": "
      +:+ c_bool (NSRequiresCertificateTransparency d) use_color;
    "  - " +:+ K "MinimumTLSVersion (Exception/Temporary)" use_color +:+ ": "
      +:+ mtls_fmt;
    "  - " +:+ K "Effective HTTP permitted" use_color +:+ ": " +:+ eff_fmt;
    "" ].

(** The three lines of the bundle-wide flags, in the order of
    [ATS_TOP_KEYS]. *)
Definition report_top (use_color : bool) (t : top_level_t) : list string :=
  List.map (λ kv : string * option value,
              "  - " +:+ K kv.1 use_color +:+ ": " +:+ c_bool kv.2 use_color)
    [ ("NSAllowsArbitraryLoads", NSAllowsArbitraryLoads t);
      ("NSAllowsArbitraryLoadsInWebContent",
       NSAllowsArbitraryLoadsInWebContent t);
      ("NSAllowsArbitraryLoadsForMedia", NSAllowsArbitraryLoadsForMedia t) ].

(** The text for one manifest. *)
Definition report_entry (py_str : value → string) (use_color : bool)
    (r : entry) : list string :=
  [ H ("Info.plist: " +:+ info_plist r) use_color;
    H "=== Top-level ATS ===" use_color ]
  ++ report_top use_color (top_level (summary_of r))
  ++ [ "" ]
  ++ match domains (summary_of r) with
     | [] => [ "  (No NSExceptionDomains or filtered by --domain)" +:+ LF ]
     | ds =>
         H "=== Domain exceptions ===" use_color
         :: concat (List.map (report_domain py_str use_color) ds)
     end.

(** The text report of [run] when [json_mode] is false. *)
Definition text_report (py_str : value → string) (use_color : bool)
    (ipa_path : string) (results : list entry) : list string :=
  H ("IPA: " +:+ ipa_path) use_color
  :: concat (List.map (report_entry py_str use_color) results).

(** What [run] prints on standard output in text mode, if it gets as far as
    the report. *)
Definition run_report (py_str : value → string) (fs : string → open_result)
    (ipa_path : string) (filter_domain : option string)
    (color_mode : string) (isatty : bool) (TERM : option string)
  : option (list string) :=
  match fs ipa_path with
  | OpenRaises _ => None
  | Opened z =>
      let plist_paths := find_all_info_plists (namelist z) in
      match plist_paths with
      | [] => None
      | _ :: _ =>
          match parse_loop z plist_paths [] [] with
          | (_, Raise _) => None
          | (_, Ok results) =>
              Some (text_report py_str
                      (wants_color color_mode isatty TERM) ipa_path
                      (apply_filter filter_domain results))
          end
      end
  end.

(** A string holds the escape character. *)
Fixpoint has_esc (s : string) : bool :=
  match s with
  | EmptyString => false
  | String c s' => Ascii.eqb c "027"%char || has_esc s'
  end.

(** A stand-in for [str] on the values of the examples. *)
Definition str_of_example (v : value) : string :=
  match v with
  | VStr s => s
  | VBool true => "True"
  | VBool false => "False"
  | _ => "?"
  end.

(** The line of the report that tells of an effective permission. *)
Definition permitted_line (use_color : bool) : string :=
  "  - " +:+ K "Effective HTTP permitted" use_color +:+ ": "
  +:+ c_txt "True" GRN use_color.

(** How [run] ends once the loop has given the results [es]: the filter,
    the verdict, and in JSON mode the serialization. *)
Definition verdict (filter_domain : option string) (json_mode : bool)
    (es : list entry) : outcome :=
  let results := apply_filter filter_domain es in
  if json_mode && negb (json_dumps_ok results) then Uncaught TypeError
  else Exit (if insecure results then 2 else 0).

(** The proviso under which the JSON mode can serialize what it has to:
    no data, date or UID value is copied into a summary.  It says nothing
    in text mode. *)
Definition json_safe (json_mode : bool) (z : archive) (paths : list string)
  : Prop :=
  json_mode = true →
  ∀ p pl s, p ∈ paths → parse_plist z p = Decoded pl →
            summarize_pl pl = Ok s → json_ok_summary s = true.


(** A section whose bundle-wide flag holds the string [NO], with one
    domain that declares nothing. *)
Definition tree_global_string : gmap string value :=
  {[ ATS := VDict {[ ARB := VStr "NO";
                     EXC := VDict {[ "example.com" := VDict ∅ ]} ]} ]}.

(** A domain whose TLS key holds a date: the summary cannot be written as
    JSON. *)
Definition tree_date_flag : gmap string value :=
  {[ ATS := VDict {[ EXC := VDict {[ "example.com" :=
       VDict {[ "NSExceptionMinimumTLSVersion" := VDate 0 ]} ]} ]} ]}.

(** A string holds a line feed. *)
Fixpoint has_lf (s : string) : bool :=
  match s with
  | EmptyString => false
  | String c s' => Ascii.eqb c "010"%char || has_lf s'
  end.

(** What standard output receives from a sequence of calls of [print]:
    each call writes its argument and then a line feed. *)
Definition stdout_text (prints : list string) : string :=
  foldr (λ p acc, p +:+ LF +:+ acc) EmptyString prints.

(** The lines of a text: the pieces between its line feeds. *)
Fixpoint split_lines (s : string) : list string :=
  match s with
  | EmptyString => [EmptyString]
  | String c s' =>
      if Ascii.eqb c "010"%char then EmptyString :: split_lines s'
      else match split_lines s' with
           | l :: ls => String c l :: ls
           | [] => [String c EmptyString]
           end
  end.

(** The note that [run] prints for a manifest without domain record. *)
Definition no_domains_note : string :=
  "  (No NSExceptionDomains or filtered by --domain)".

(** * Properties *)

(** ** The evaluator *)

Lemma truthy_dict_empty : truthy (VDict ∅) = false.
Proof. reflexivity. Qed.

Lemma truthy_dict_false (m : gmap string value) :
  truthy (VDict m) = false → m = ∅.
Proof.
  simpl. destruct (map_to_list m) eqn:E; [|discriminate].
  intros _. by apply map_to_list_empty_iff.
Qed.

Lemma or_empty_as_mapping (o : option value) :
  match as_mapping o with
  | Some m => or_value (default (VDict ∅) o) (VDict ∅) = VDict m
  | None => is_dict (or_value (default (VDict ∅) o) (VDict ∅)) = false
  end.
Proof.
  destruct o as [v|]; [|reflexivity].
  unfold or_value.
  destruct v; simpl default; cbn [as_mapping];
    try (destruct (truthy _) eqn:E; [reflexivity|reflexivity]).
  destruct (truthy (VDict m)) eqn:E; [reflexivity|].
  by rewrite (truthy_dict_false m E).
Qed.

Lemma dict_get_not_dict {v : value} (k : string) :
  is_dict v = false → dict_get v k = Raise AttributeError.
Proof. by destruct v. Qed.

Lemma make_row_dict top dname cfg :
  make_row top (dname, VDict cfg) = Ok (row_of top dname cfg).
Proof. reflexivity. Qed.

Lemma make_row_not_dict top dname v :
  is_dict v = false → make_row top (dname, v) = Raise AttributeError.
Proof. by destruct v. Qed.

(** [summarize_pl] on a dict, with the two [or {}] idioms resolved. *)
Lemma summarize_pl_unfold (pl : gmap string value) :
  summarize_pl (VDict pl) =
  match as_mapping (pl !! ATS) with
  | None => Raise AttributeError
  | Some ats =>
      match as_mapping (ats !! EXC) with
      | None => Raise AttributeError
      | Some exc =>
          rows ← mapM_result (make_row (tops ats))
                   (merge_sort item_le (map_to_list exc));
          Ok {| top_level := tops ats; domains := rows |}
      end
  end.
Proof.
  unfold summarize_pl, dict_get_default. cbn [dict_get mbind result_bind].
  pose proof (or_empty_as_mapping (pl !! ATS)) as H1. fold ATS.
  destruct (as_mapping (pl !! ATS)) as [ats|].
  - rewrite H1. cbn [dict_get mbind result_bind]. fold EXC.
    pose proof (or_empty_as_mapping (ats !! EXC)) as H2.
    destruct (as_mapping (ats !! EXC)) as [exc|].
    + rewrite H2. reflexivity.
    + destruct (or_value (default (VDict ∅) (ats !! EXC)) (VDict ∅));
        try discriminate; reflexivity.
  - destruct (or_value (default (VDict ∅) (pl !! ATS)) (VDict ∅));
      try discriminate; reflexivity.
Qed.

Lemma mapM_result_Ok_inv {A B} (f : A → result B) l bs :
  mapM_result f l = Ok bs → Forall2 (λ a b, f a = Ok b) l bs.
Proof.
  revert bs. induction l as [|a l IH]; intros bs; simpl.
  - intros [= <-]. constructor.
  - destruct (f a) as [b|e] eqn:Ea; [|discriminate]. simpl.
    destruct (mapM_result f l) as [bs'|e]; [|discriminate]. simpl.
    intros [= <-]. constructor; [done|]. by apply IH.
Qed.

Lemma mapM_result_Ok_intro {A B} (f : A → result B) l bs :
  Forall2 (λ a b, f a = Ok b) l bs → mapM_result f l = Ok bs.
Proof.
  induction 1 as [|a b l bs Hab _ IH]; simpl; [done|].
  by rewrite Hab; simpl; rewrite IH.
Qed.

Lemma mapM_result_Raise_inv {A B} (f : A → result B) l e :
  mapM_result f l = Raise e → ∃ a, a ∈ l ∧ f a = Raise e.
Proof.
  induction l as [|a l IH]; simpl; [discriminate|].
  destruct (f a) as [b|e'] eqn:Ea; simpl.
  - destruct (mapM_result f l) as [bs'|e'']; simpl; [discriminate|].
    intros [= ->]. destruct IH as (a' & Hin & Ha'); [done|].
    exists a'. split; [by right|done].
  - intros [= ->]. exists a. split; [by left|done].
Qed.

Lemma mapM_result_total {A B} (f : A → result B) l :
  (∀ a, a ∈ l → ∃ b, f a = Ok b) → ∃ bs, mapM_result f l = Ok bs.
Proof.
  induction l as [|a l IH]; intros H; simpl; [by eexists|].
  destruct (H a) as [b ->]; [by left|]. simpl.
  destruct IH as [bs ->]; [intros; apply H; by right|]. by eexists.
Qed.

(** The sorted items of a dict are its key/value pairs. *)
Lemma elem_of_sorted_items (m : gmap string value) k v :
  (k, v) ∈ merge_sort item_le (map_to_list m) ↔ m !! k = Some v.
Proof. by rewrite merge_sort_Permutation, elem_of_map_to_list. Qed.

Lemma as_mapping_lookup o (m : gmap string value) k v :
  as_mapping o = Some m → m !! k = Some v → o = Some (VDict m).
Proof.
  destruct o as [w|]; simpl.
  - destruct w; try (destruct (truthy _); intros [= <-]; by rewrite lookup_empty).
    by intros [= <-].
  - intros [= <-]. by rewrite lookup_empty.
Qed.

(** Every record of a summary is the record of one exception domain of the
    tree, built from that domain's own dict and the section's flags. *)
Lemma summarize_pl_row_inv (pl : value) (s : summary) (d : row) :
  summarize_pl pl = Ok s → d ∈ domains s →
  ∃ m ats exc cfg : gmap string value,
    pl = VDict m ∧ m !! ATS = Some (VDict ats) ∧
    ats !! EXC = Some (VDict exc) ∧ exc !! domain d = Some (VDict cfg) ∧
    top_level s = tops ats ∧ d = row_of (tops ats) (domain d) cfg.
Proof.
  intros Hs Hd. destruct pl as [| | | | |m| | |]; try discriminate.
  rewrite summarize_pl_unfold in Hs.
  destruct (as_mapping (m !! ATS)) as [ats|] eqn:Hats; [|discriminate].
  destruct (as_mapping (ats !! EXC)) as [exc|] eqn:Hexc; [|discriminate].
  destruct (mapM_result _ _) as [rows|] eqn:Hrows; [|discriminate].
  simpl in Hs. injection Hs as <-. simpl in Hd |- *.
  apply mapM_result_Ok_inv in Hrows.
  destruct (proj1 (list_elem_of_lookup _ _) Hd) as [i Hi].
  destruct (Forall2_lookup_r _ _ _ _ _ Hrows Hi) as ([k v] & Hkv & Hmk).
  apply list_elem_of_lookup_2, elem_of_sorted_items in Hkv.
  destruct v as [| | | | |cfg| | |]; try discriminate.
  rewrite make_row_dict in Hmk. injection Hmk as <-. simpl.
  pose proof (as_mapping_lookup _ _ _ _ Hexc Hkv) as Hexc'.
  pose proof (as_mapping_lookup _ _ _ _ Hats Hexc') as Hats'.
  by exists m, ats, exc, cfg.
Qed.

(** Conversely every exception domain of the tree has its record. *)
Lemma summarize_pl_row_intro (m ats exc cfg : gmap string value) dname s :
  m !! ATS = Some (VDict ats) → ats !! EXC = Some (VDict exc) →
  exc !! dname = Some (VDict cfg) →
  summarize_pl (VDict m) = Ok s →
  row_of (tops ats) dname cfg ∈ domains s.
Proof.
  intros Hats Hexc Hcfg Hs. rewrite summarize_pl_unfold in Hs.
  rewrite Hats in Hs. simpl in Hs. rewrite Hexc in Hs. simpl in Hs.
  destruct (mapM_result _ _) as [rows|] eqn:Hrows; [|discriminate].
  simpl in Hs. injection Hs as <-. simpl.
  apply mapM_result_Ok_inv in Hrows.
  apply elem_of_sorted_items, list_elem_of_lookup in Hcfg as [i Hi].
  destruct (Forall2_lookup_l _ _ _ _ _ Hrows Hi) as (d & Hd & Hmk).
  rewrite make_row_dict in Hmk. injection Hmk as <-.
  by eapply list_elem_of_lookup_2.
Qed.

Lemma py_bool_is_True (o : option value) :
  bool_or_absent o → py_bool o = is_True o.
Proof. intros [->|[[] ->]]; reflexivity. Qed.

(** C1 (as amended): the effective verdict of every record is the OR of the
    truth values, in Python's sense, of the domain's canonical flag, of its
    legacy alias and of the bundle-wide flag; an explicit [true] on the
    bundle-wide flag makes it true whatever the domain declares; and when
    the three values are booleans or absent the tests are the tests for an
    explicit [true]. *)
Theorem effective_http_permitted_is_truthy_or
    (pl : value) (s : summary) (d : row) :
  summarize_pl pl = Ok s → d ∈ domains s →
  ∃ m ats exc cfg : gmap string value,
    pl = VDict m ∧ m !! ATS = Some (VDict ats) ∧
    ats !! EXC = Some (VDict exc) ∧ exc !! domain d = Some (VDict cfg) ∧
    let canonical := cfg !! "NSExceptionAllowsInsecureHTTPLoads" in
    let legacy := cfg !! "NSTemporaryExceptionAllowsInsecureHTTPLoads" in
    let global := ats !! "NSAllowsArbitraryLoads" in
    NSExceptionAllowsInsecureHTTPLoads d = canonical ∧
    NSTemporaryExceptionAllowsInsecureHTTPLoads d = legacy ∧
    NSAllowsArbitraryLoads (top_level s) = global ∧
    effective_http_permitted d
      = py_bool canonical || py_bool legacy || py_bool global ∧
    (global = Some (VBool true) → effective_http_permitted d = true) ∧
    (bool_or_absent canonical → bool_or_absent legacy →
     bool_or_absent global →
     effective_http_permitted d
       = is_True canonical || is_True legacy || is_True global).
Proof.
  intros Hs Hd.
  destruct (summarize_pl_row_inv pl s d Hs Hd)
    as (m & ats & exc & cfg & -> & Hats & Hexc & Hcfg & Htop & Hrow).
  exists m, ats, exc, cfg. repeat (split; [done|]).
  cbv zeta. rewrite Htop, Hrow. cbn.
  repeat split.
  - intros ->. cbn. by rewrite !orb_true_r.
  - intros Ha Hb Hg. by rewrite !py_bool_is_True.
Qed.

Lemma effective_http_permitted_is_truthy_or_witness :
  ∃ cfg : gmap string value,
    effective_http_permitted row_http_domain
    = py_bool (cfg !! "NSExceptionAllowsInsecureHTTPLoads")
      || py_bool (cfg !! "NSTemporaryExceptionAllowsInsecureHTTPLoads")
      || py_bool (NSAllowsArbitraryLoads (top_level summary_http_domain)).
Proof.
  destruct (effective_http_permitted_is_truthy_or
              (VDict tree_http_domain) summary_http_domain row_http_domain)
    as (m & ats & exc & cfg & _ & _ & _ & _ & _ & _ & Htop & He & _).
  - vm_compute. reflexivity.
  - simpl. left.
  - exists cfg. rewrite Htop. exact He.
Defined.

(** C1 (as stated) fails: a flag that holds the string [NO] is no explicit
    [true], yet the record's effective verdict is true. *)
Lemma string_flag_counts_as_true :
  ∃ s d, summarize_pl tree_string_flag = Ok s ∧ domains s = [d] ∧
         NSExceptionAllowsInsecureHTTPLoads d = Some (VStr "NO") ∧
         effective_http_permitted d = true ∧
         spec_effective_http_permitted (top_level s) d = false.
Proof. do 2 eexists. split; [vm_compute; reflexivity|]. by vm_compute. Qed.

(** C7 (as amended): the effective minimum TLS version of every record is
    the canonical key's value when that value is true in Python's sense (a
    non-empty string, for one), and otherwise the legacy alias's value, or
    absent when the legacy key is absent; so with both keys present, the
    canonical value is chosen whenever it is a true value. *)
Theorem minimum_tls_effective_canonical_if_truthy
    (pl : value) (s : summary) (d : row) :
  summarize_pl pl = Ok s → d ∈ domains s →
  ∃ m ats exc cfg : gmap string value,
    pl = VDict m ∧ m !! ATS = Some (VDict ats) ∧
    ats !! EXC = Some (VDict exc) ∧ exc !! domain d = Some (VDict cfg) ∧
    let canonical := cfg !! "NSExceptionMinimumTLSVersion" in
    let legacy := cfg !! "NSTemporaryExceptionMinimumTLSVersion" in
    NSExceptionMinimumTLSVersion d = canonical ∧
    NSTemporaryExceptionMinimumTLSVersion d = legacy ∧
    MinimumTLSVersionEffective d
      = (if py_bool canonical then canonical else legacy) ∧
    (∀ v, canonical = Some v → truthy v = true →
          MinimumTLSVersionEffective d = Some v) ∧
    (canonical = None → MinimumTLSVersionEffective d = legacy).
Proof.
  intros Hs Hd.
  destruct (summarize_pl_row_inv pl s d Hs Hd)
    as (m & ats & exc & cfg & -> & Hats & Hexc & Hcfg & Htop & Hrow).
  exists m, ats, exc, cfg. repeat (split; [done|]).
  cbv zeta. rewrite Hrow. cbn. unfold py_or.
  repeat split.
  - intros v -> Hv. cbn. by rewrite Hv.
  - by intros ->.
Qed.

Lemma minimum_tls_effective_canonical_if_truthy_witness :
  ∃ cfg : gmap string value,
    MinimumTLSVersionEffective
      (row_of (tops ∅) "example.com" cfg_empty_canonical_tls)
    = if py_bool (cfg !! "NSExceptionMinimumTLSVersion")
      then cfg !! "NSExceptionMinimumTLSVersion"
      else cfg !! "NSTemporaryExceptionMinimumTLSVersion".
Proof.
  destruct (minimum_tls_effective_canonical_if_truthy
              tree_empty_canonical_tls summary_empty_canonical_tls
              (row_of (tops ∅) "example.com" cfg_empty_canonical_tls))
    as (m & ats & exc & cfg & _ & _ & _ & _ & _ & _ & He & _).
  - vm_compute. reflexivity.
  - simpl. left.
  - exists cfg. exact He.
Defined.

(** C7 (as stated) fails: with the canonical key present but empty and the
    legacy key set, the legacy value is the effective one. *)
Lemma empty_canonical_tls_yields_legacy :
  ∃ s d, summarize_pl tree_empty_canonical_tls = Ok s ∧ domains s = [d] ∧
         NSExceptionMinimumTLSVersion d = Some (VStr "") ∧
         NSTemporaryExceptionMinimumTLSVersion d = Some (VStr "TLSv1.0") ∧
         MinimumTLSVersionEffective d = Some (VStr "TLSv1.0") ∧
         MinimumTLSVersionEffective d ≠ spec_minimum_tls_effective d.
Proof. do 2 eexists. split; [vm_compute; reflexivity|]. by vm_compute. Qed.

Lemma forallb_is_dict_items (exc : gmap string value) :
  forallb (λ it, is_dict it.2) (map_to_list exc) = true ↔
  ∀ k v, exc !! k = Some v → is_dict v = true.
Proof.
  rewrite forallb_forall. split.
  - intros H k v Hkv. apply (H (k, v)).
    by apply list_elem_of_In, elem_of_map_to_list.
  - intros H [k v] Hin. apply (H k).
    by apply elem_of_map_to_list, list_elem_of_In.
Qed.

(** C5 (as amended): on a manifest tree the evaluator returns a summary
    exactly when the value under the network-security key is absent, a
    mapping or a false value, the value under the exception-domains key of
    that section likewise, and every exception domain is configured by a
    mapping; on every other tree it raises [AttributeError]. *)
Theorem summarize_pl_returns_iff_evaluable (pl : gmap string value) :
  ((∃ s, summarize_pl (VDict pl) = Ok s) ↔ evaluable pl = true) ∧
  (evaluable pl = false → summarize_pl (VDict pl) = Raise AttributeError).
Proof.
  rewrite summarize_pl_unfold. unfold evaluable.
  destruct (as_mapping (pl !! ATS)) as [ats|];
    [|by repeat split; try intros [? ?]].
  destruct (as_mapping (ats !! EXC)) as [exc|];
    [|by repeat split; try intros [? ?]].
  destruct (mapM_result _ _) as [rows|e] eqn:Hrows; simpl.
  - assert (forallb (λ it, is_dict it.2) (map_to_list exc) = true) as ->.
    { apply forallb_is_dict_items. intros k v Hkv.
      apply mapM_result_Ok_inv in Hrows.
      apply elem_of_sorted_items, list_elem_of_lookup in Hkv as [i Hi].
      destruct (Forall2_lookup_l _ _ _ _ _ Hrows Hi) as (d & _ & Hmk).
      destruct (is_dict v) eqn:Hv; [done|].
      by rewrite make_row_not_dict in Hmk. }
    split; [split; [done|by eexists]|done].
  - apply mapM_result_Raise_inv in Hrows as ([k v] & Hin & Hmk).
    assert (is_dict v = false) as Hv.
    { by destruct v. }
    rewrite make_row_not_dict in Hmk by done. injection Hmk as <-.
    assert (forallb (λ it, is_dict it.2) (map_to_list exc) = false) as ->.
    { apply not_true_is_false. rewrite forallb_is_dict_items. intros H.
      apply elem_of_sorted_items in Hin. apply H in Hin. congruence. }
    split; [split; [by intros [? ?]|done]|done].
Qed.

Lemma summarize_pl_returns_iff_evaluable_witness :
  (∃ s, summarize_pl (VDict tree_http_domain) = Ok s) ∧
  summarize_pl (VDict tree_domains_number) = Raise AttributeError.
Proof.
  split.
  - apply (proj1 (summarize_pl_returns_iff_evaluable tree_http_domain)).
    vm_compute. reflexivity.
  - apply (proj2 (summarize_pl_returns_iff_evaluable tree_domains_number)).
    vm_compute. reflexivity.
Defined.

(** C5 (as stated) fails: a string under the network-security key, or a
    number under the exception-domains key, makes the evaluator raise. *)
Lemma summarize_pl_raises_on_non_mapping :
  summarize_pl (VDict tree_section_string) = Raise AttributeError ∧
  summarize_pl (VDict tree_domains_number) = Raise AttributeError.
Proof. split; vm_compute; reflexivity. Qed.

Lemma make_row_top_ext (top top' : top_level_t) (it : string * value) :
  py_bool (NSAllowsArbitraryLoads top) = py_bool (NSAllowsArbitraryLoads top') →
  make_row top it = make_row top' it.
Proof.
  intros H. destruct it as [k v]. destruct v; try reflexivity.
  rewrite !make_row_dict. unfold row_of. by rewrite H.
Qed.

Lemma mapM_result_ext {A B} (f g : A → result B) l :
  (∀ a, f a = g a) → mapM_result f l = mapM_result g l.
Proof.
  intros H. induction l as [|a l IH]; simpl; [done|]. by rewrite H, IH.
Qed.

(** The domain records depend on the security section only through its
    exception domains and the truth value of the bundle-wide flag. *)
Lemma domains_summarize_pl_ext (pl1 pl2 ats1 ats2 : gmap string value) :
  as_mapping (pl1 !! ATS) = Some ats1 → as_mapping (pl2 !! ATS) = Some ats2 →
  ats1 !! EXC = ats2 !! EXC →
  py_bool (ats1 !! ARB) = py_bool (ats2 !! ARB) →
  domains <$> summarize_pl (VDict pl1) = domains <$> summarize_pl (VDict pl2).
Proof.
  intros H1 H2 Hexc Harb. rewrite !summarize_pl_unfold, H1, H2, Hexc.
  destruct (as_mapping (ats2 !! EXC)) as [exc|]; [|done].
  rewrite (mapM_result_ext (make_row (tops ats1)) (make_row (tops ats2)))
    by (intros; by apply make_row_top_ext).
  by destruct (mapM_result _ _).
Qed.

(** C6 (as amended): starting from a tree whose bundle-wide
    arbitrary-loads flag is undeclared or explicitly false, writing an
    explicit false and removing the flag both leave every domain record as
    it was, and in these two states the override is inactive (a record's
    effective verdict is decided by the domain's own flags).  The override
    is activated by an explicit true and by every other value that is true
    in Python's sense, such as a non-empty string or a nonzero number;
    every false value leaves the records as the undeclared flag does. *)
Theorem undeclared_and_false_global_flag_agree (pl ats : gmap string value) :
  as_mapping (pl !! ATS) = Some ats →
  ats !! ARB = None ∨ ats !! ARB = Some (VBool false) →
  let with_section (a : gmap string value) := VDict (<[ATS := VDict a]> pl) in
  domains <$> summarize_pl (with_section (<[ARB := VBool false]> ats))
    = domains <$> summarize_pl (VDict pl) ∧
  domains <$> summarize_pl (with_section (delete ARB ats))
    = domains <$> summarize_pl (VDict pl) ∧
  (∀ s d, summarize_pl (VDict pl) = Ok s → d ∈ domains s →
     effective_http_permitted d
       = py_bool (NSExceptionAllowsInsecureHTTPLoads d)
         || py_bool (NSTemporaryExceptionAllowsInsecureHTTPLoads d)) ∧
  (∀ s d, summarize_pl (with_section (<[ARB := VBool true]> ats)) = Ok s →
     d ∈ domains s → effective_http_permitted d = true) ∧
  (∀ v, truthy v = true →
     ∀ s d, summarize_pl (with_section (<[ARB := v]> ats)) = Ok s →
            d ∈ domains s → effective_http_permitted d = true) ∧
  (∀ v, truthy v = false →
     domains <$> summarize_pl (with_section (<[ARB := v]> ats))
     = domains <$> summarize_pl (VDict pl)).
Proof.
  intros Hats Harb with_section.
  assert (py_bool (ats !! ARB) = false) as Hoff by (by destruct Harb as [-> | ->]).
  assert (∀ a, as_mapping (<[ATS := VDict a]> pl !! ATS) = Some a) as Hsec.
  { intros a. by rewrite lookup_insert_eq. }
  assert (∀ v, truthy v = true →
     ∀ s d, summarize_pl (with_section (<[ARB := v]> ats)) = Ok s →
            d ∈ domains s → effective_http_permitted d = true) as Hon.
  { intros v Hv s d Hs Hd.
    destruct (summarize_pl_row_inv _ s d Hs Hd)
      as (m & ats' & exc & cfg & [= <-] & Hats' & _ & _ & _ & ->).
    rewrite lookup_insert_eq in Hats'. injection Hats' as <-.
    cbn. change "NSAllowsArbitraryLoads" with ARB.
    rewrite lookup_insert_eq. cbn. by rewrite Hv, orb_true_r. }
  assert (∀ v, truthy v = false →
     domains <$> summarize_pl (with_section (<[ARB := v]> ats))
     = domains <$> summarize_pl (VDict pl)) as Hoffv.
  { intros v Hv. apply (domains_summarize_pl_ext _ _ _ _ (Hsec _) Hats).
    - by rewrite lookup_insert_ne.
    - rewrite lookup_insert_eq. cbn. by rewrite Hv, Hoff. }
  split_and!.
  - by apply Hoffv.
  - apply (domains_summarize_pl_ext _ _ _ _ (Hsec _) Hats).
    + by rewrite lookup_delete_ne.
    + by rewrite lookup_delete_eq.
  - intros s d Hs Hd.
    destruct (summarize_pl_row_inv _ s d Hs Hd)
      as (m & ats' & exc & cfg & [= <-] & Hats' & _ & _ & _ & ->).
    rewrite Hats' in Hats. injection Hats as ->.
    cbn. unfold ARB in Hoff. rewrite Hoff. by rewrite orb_false_r.
  - by apply Hon.
  - done.
  - done.
Qed.

Lemma undeclared_and_false_global_flag_agree_witness :
  domains <$> summarize_pl
    (VDict (<[ATS := VDict (<[ARB := VBool false]> ats_http_domain)]>
              tree_http_domain))
  = domains <$> summarize_pl (VDict tree_http_domain).
Proof.
  refine (proj1 (undeclared_and_false_global_flag_agree
                   tree_http_domain ats_http_domain _ _)).
  - vm_compute. reflexivity.
  - left. vm_compute. reflexivity.
Defined.

(** C6 (as stated) fails in its last clause: a bundle-wide flag that holds
    the string [NO] is no explicit true, and it activates the override:
    the record of a domain that declares nothing has the effective verdict
    true. *)
Lemma string_global_flag_activates_override :
  ∃ s d, summarize_pl (VDict tree_global_string) = Ok s ∧ domains s = [d] ∧
         NSAllowsArbitraryLoads (top_level s) = Some (VStr "NO") ∧
         is_True (NSAllowsArbitraryLoads (top_level s)) = false ∧
         NSExceptionAllowsInsecureHTTPLoads d = None ∧
         NSTemporaryExceptionAllowsInsecureHTTPLoads d = None ∧
         effective_http_permitted d = true.
Proof. do 2 eexists. split; [vm_compute; reflexivity|]. by vm_compute. Qed.

(** ** The locator *)

Lemma list_filter_elem_of {A} (P : A → bool) l x :
  x ∈ List.filter P l ↔ x ∈ l ∧ P x = true.
Proof. by rewrite !list_elem_of_In, filter_In. Qed.

Lemma list_filter_sublist {A} (P : A → bool) l :
  List.filter P l `sublist_of` l.
Proof.
  induction l as [|x l IH]; simpl; [constructor|].
  destruct (P x); by constructor.
Qed.

(** A split of the filtered list comes from a split of the list. *)
Lemma list_filter_split {A} (P : A → bool) l l1 x l2 :
  List.filter P l = l1 ++ x :: l2 →
  ∃ k1 k2, l = k1 ++ x :: k2 ∧ List.filter P k1 = l1.
Proof.
  revert l1. induction l as [|y l IH]; intros l1; simpl.
  - by destruct l1.
  - destruct (P y) eqn:Hy.
    + destruct l1 as [|z l1]; simpl.
      * intros [= -> _]. by exists [], l.
      * intros [= -> H]. destruct (IH _ H) as (k1 & k2 & -> & <-).
        exists (z :: k1), k2. simpl. by rewrite Hy.
    + intros H. destruct (IH _ H) as (k1 & k2 & -> & <-).
      exists (y :: k1), k2. simpl. by rewrite Hy.
Qed.

(** The loop that removes repeated paths, started in a state where [seen]
    holds the elements of [ordered]: it appends to [ordered] the elements
    of [l] that are new, each once, in the order of their first
    occurrence. *)
Lemma dedup_loop_spec (l : list string) :
  ∀ (seen : gset string) (ordered : list string),
    (∀ x, x ∈ seen ↔ x ∈ ordered) →
    ∃ new, (foldl dedup_step (seen, ordered) l).2 = ordered ++ new ∧
      NoDup new ∧
      (∀ x, x ∈ new ↔ x ∈ l ∧ x ∉ ordered) ∧
      new `sublist_of` l ∧
      (∀ (i j : nat) p q, new !! i = Some p → new !! j = Some q → i < j →
         ∃ l1 l2, l = l1 ++ p :: l2 ∧ (p ∉ l1) ∧ (q ∉ l1)).
Proof.
  induction l as [|x l IH]; intros seen ordered Hseen; simpl.
  - exists []. rewrite app_nil_r. split_and!; try constructor.
    + by intros ?%elem_of_nil.
    + by intros [?%elem_of_nil _].
    + intros i j p q Hi. by rewrite lookup_nil in Hi.
  - unfold dedup_step at 2. simpl. destruct (decide (x ∈ seen)) as [Hx|Hx].
    + destruct (IH seen ordered Hseen) as (new & -> & Hnd & Hin & Hsub & Hord).
      assert (∀ y, y ∈ new → y ≠ x) as Hne.
      { intros y Hy%Hin ->. destruct Hy as [_ Hy]. by apply Hy, Hseen. }
      exists new. split_and!; try done.
      * intros y. rewrite Hin, elem_of_cons. split; [intros [? ?]; by auto|].
        intros [[->|?] Hno]; [|done]. by apply Hseen in Hx.
      * by constructor.
      * intros i j p q Hi Hj Hij.
        destruct (Hord i j p q Hi Hj Hij) as (l1 & l2 & -> & Hp & Hq).
        exists (x :: l1), l2. split; [done|].
        split; apply not_elem_of_cons; split; try done.
        -- eapply Hne, list_elem_of_lookup_2, Hi.
        -- eapply Hne, list_elem_of_lookup_2, Hj.
    + destruct (IH (seen ∪ {[x]}) (ordered ++ [x]))
        as (new & -> & Hnd & Hin & Hsub & Hord).
      { intros y. rewrite elem_of_union, elem_of_singleton, elem_of_app,
          list_elem_of_singleton. by rewrite Hseen. }
      exists (x :: new). rewrite <- app_assoc. simpl.
      assert (∀ y, y ∈ new → y ≠ x) as Hne.
      { intros y Hy%Hin ->. destruct Hy as [_ Hy]. apply Hy.
        apply elem_of_app. right. by left. }
      assert (x ∉ ordered) as Hxo by (by rewrite <- Hseen).
      split_and!; try done.
      * constructor; [|done]. intros Hxn. by apply (Hne x).
      * intros y. rewrite !elem_of_cons, Hin, elem_of_app, list_elem_of_singleton.
        split.
        -- intros [->|[? ?]]; [by auto|]. split; [by auto|]. by auto.
        -- intros [[->|?] Hno]; [by left|].
           destruct (decide (y = x)) as [->|?]; [by left|].
           right. split; [done|]. by intros [?|?].
      * by constructor.
      * intros i j p q Hi Hj Hij.
        destruct i as [|i]; simpl in Hi.
        -- injection Hi as <-. exists [], l. simpl.
           split_and!; [done|apply not_elem_of_nil..].
        -- destruct j as [|j]; [lia|]. simpl in Hj.
           destruct (Hord i j p q Hi Hj ltac:(lia)) as (l1 & l2 & -> & Hp & Hq).
           exists (x :: l1), l2. split; [done|].
           split; apply not_elem_of_cons; split; try done.
           ++ eapply Hne, list_elem_of_lookup_2, Hi.
           ++ eapply Hne, list_elem_of_lookup_2, Hj.
Qed.

Lemma find_all_info_plists_spec (names : list string) :
  NoDup (find_all_info_plists names) ∧
  (∀ p, p ∈ find_all_info_plists names ↔ p ∈ names ∧ matches_any p = true) ∧
  find_all_info_plists names `sublist_of` names ∧
  (∀ (i j : nat) p q,
     find_all_info_plists names !! i = Some p →
     find_all_info_plists names !! j = Some q → i < j →
     ∃ l1 l2, names = l1 ++ p :: l2 ∧ (p ∉ l1) ∧ (q ∉ l1)).
Proof.
  unfold find_all_info_plists. cbv zeta.
  destruct (dedup_loop_spec (List.filter matches_any names) ∅ [])
    as (new & -> & Hnd & Hin & Hsub & Hord).
  { intros x. by rewrite elem_of_empty, elem_of_nil. }
  simpl. split_and!; [done| | |].
  - intros p. rewrite Hin, list_filter_elem_of, elem_of_nil. tauto.
  - etrans; [done|]. apply list_filter_sublist.
  - intros i j p q Hi Hj Hij.
    destruct (Hord i j p q Hi Hj Hij) as (l1 & l2 & Hl & Hp & Hq).
    destruct (list_filter_split _ _ _ _ _ Hl) as (k1 & k2 & -> & <-).
    exists k1, k2. split; [done|].
    assert (∀ y, y ∈ new → y ∈ k1 → y ∈ List.filter matches_any k1) as Hk.
    { intros y Hy%Hin Hyk. apply list_filter_elem_of. split; [done|].
      destruct Hy as [Hy _]. by apply list_filter_elem_of in Hy as [_ ?]. }
    split; intros Hc.
    + eapply Hp, Hk; [|done]. eapply list_elem_of_lookup_2, Hi.
    + eapply Hq, Hk; [|done]. eapply list_elem_of_lookup_2, Hj.
Qed.

Lemma elem_of_find_all_info_plists (names : list string) (p : string) :
  p ∈ find_all_info_plists names ↔ p ∈ names ∧ matches_any p = true.
Proof. apply find_all_info_plists_spec. Qed.

(** C9: the locator's list has no repetition, holds exactly the member
    names that match a pattern, is a subsequence of the archive's member
    list, and orders its paths by first occurrence: when [p] comes before
    [q] in the result, the first occurrence of [p] in the archive precedes
    every occurrence of [q]. *)
Theorem find_all_info_plists_first_seen_once (names : list string) :
  let found := find_all_info_plists names in
  NoDup found ∧
  (∀ p, p ∈ found ↔ p ∈ names ∧ matches_any p = true) ∧
  found `sublist_of` names ∧
  (∀ (i j : nat) p q, found !! i = Some p → found !! j = Some q → i < j →
     ∃ l1 l2, names = l1 ++ p :: l2 ∧ (p ∉ l1) ∧ (q ∉ l1)).
Proof. apply find_all_info_plists_spec. Qed.

(** A path that two patterns match, met twice and out of alphabetical
    order, is listed once, where it was first seen. *)
Example find_all_info_plists_twice_matched :
  fnmatch "Payload/b/x.app/Info.plist" "Payload/*.app/Info.plist" = true ∧
  fnmatch "Payload/b/x.app/Info.plist" "Payload/**/*.app/Info.plist" = true ∧
  find_all_info_plists
    [ "Payload/b/x.app/Info.plist"; "Payload/a.app/Info.plist";
      "Payload/b/x.app/Info.plist" ]
  = [ "Payload/b/x.app/Info.plist"; "Payload/a.app/Info.plist" ].
Proof. by vm_compute. Qed.

Lemma find_all_info_plists_first_seen_once_witness :
  ∃ l1 l2,
    [ "Payload/b/x.app/Info.plist"; "Payload/a.app/Info.plist";
      "Payload/b/x.app/Info.plist" ]
    = l1 ++ "Payload/b/x.app/Info.plist" :: l2 ∧
    ("Payload/b/x.app/Info.plist" ∉ l1) ∧ ("Payload/a.app/Info.plist" ∉ l1).
Proof.
  refine (proj2 (proj2 (proj2 (find_all_info_plists_first_seen_once
    [ "Payload/b/x.app/Info.plist"; "Payload/a.app/Info.plist";
      "Payload/b/x.app/Info.plist" ]))) 0%nat 1%nat _ _ _ _ _).
  - vm_compute. reflexivity.
  - vm_compute. reflexivity.
  - lia.
Defined.

Lemma string_app_nil_r (s : string) : s +:+ "" = s.
Proof. induction s as [|c s IH]; [done|]. unfold String.app in *. simpl. by rewrite IH. Qed.

Lemma string_app_assoc (s t u : string) : (s +:+ t) +:+ u = s +:+ t +:+ u.
Proof.
  induction s as [|c s IH]; [done|]. unfold String.app in *. simpl. by rewrite IH.
Qed.

Lemma string_app_nil_l (s : string) : "" +:+ s = s.
Proof. reflexivity. Qed.

Lemma string_app_cons (c : ascii) (s t : string) :
  String c s +:+ t = String c (s +:+ t).
Proof. reflexivity. Qed.

Lemma fnmatch_from_nil (n : string) : fnmatch_from "" n = true ↔ n = "".
Proof. by destruct n. Qed.

Lemma fnmatch_from_star_unfold (pat n : string) :
  fnmatch_from (String "*" pat) n
  = fnmatch_from pat n
    || match n with
       | EmptyString => false
       | String _ n' => fnmatch_from (String "*" pat) n'
       end.
Proof. by destruct n. Qed.

(** A star takes any run of characters, slashes included. *)
Lemma fnmatch_from_star (pat n : string) :
  fnmatch_from (String "*" pat) n = true ↔
  ∃ a b, n = a +:+ b ∧ fnmatch_from pat b = true.
Proof.
  induction n as [|c n IH]; rewrite fnmatch_from_star_unfold.
  - rewrite orb_false_r. split.
    + intros H. by exists "", "".
    + intros (a & b & Hab & H). destruct a; [|done].
      rewrite string_app_nil_l in Hab. by rewrite <- Hab in H.
  - rewrite orb_true_iff, IH. split.
    + intros [H|(a & b & -> & H)].
      * by exists "", (String c n).
      * by exists (String c a), b.
    + intros (a & b & Hab & H). destruct a as [|c' a].
      * left. by rewrite Hab, string_app_nil_l.
      * right. rewrite string_app_cons in Hab.
        injection Hab as -> ->. by exists a, b.
Qed.

(** Literal characters take themselves. *)
Lemma fnmatch_from_literal (lit pat n : string) :
  literal lit = true →
  fnmatch_from (lit +:+ pat) n = true ↔
  ∃ n', n = lit +:+ n' ∧ fnmatch_from pat n' = true.
Proof.
  revert n. induction lit as [|c lit IH]; intros n Hlit.
  - split; [intros H; by exists n|by intros (n' & -> & H)].
  - simpl in Hlit. apply andb_true_iff in Hlit as [Hc Hlit].
    apply andb_true_iff in Hc as [Hc1 Hc2].
    apply negb_true_iff in Hc1, Hc2.
    rewrite string_app_cons. simpl. rewrite Hc1, Hc2.
    destruct n as [|d n].
    + split; [done|]. by intros (n' & ? & _).
    + rewrite andb_true_iff, (IH n Hlit). split.
      * intros [Hcd (n' & -> & H)]. apply Ascii.eqb_eq in Hcd as ->.
        by exists n'.
      * intros (n' & Hn & H). rewrite string_app_cons in Hn.
        injection Hn as -> ->. split; [apply Ascii.eqb_refl|by exists n'].
Qed.

Lemma fnmatch_from_literal_only (lit n : string) :
  literal lit = true → fnmatch_from lit n = true ↔ n = lit.
Proof.
  intros Hlit. rewrite <- (string_app_nil_r lit) at 1.
  rewrite fnmatch_from_literal by done. split.
  - intros (n' & -> & ->%fnmatch_from_nil). by rewrite string_app_nil_r.
  - intros ->. exists "". by rewrite string_app_nil_r.
Qed.

Lemma fnmatch_app_pattern (n : string) :
  fnmatch n "Payload/*.app/Info.plist" = true ↔
  ∃ a, n = "Payload/" +:+ a +:+ ".app/Info.plist".
Proof.
  unfold fnmatch.
  change "Payload/*.app/Info.plist"
    with ("Payload/" +:+ String "*" (".app/Info.plist" +:+ "")).
  rewrite fnmatch_from_literal by done. split.
  - intros (n1 & -> & (a & b & -> & H)%fnmatch_from_star).
    apply fnmatch_from_literal in H as (n2 & -> & ->%fnmatch_from_nil); [|done].
    exists a. by rewrite string_app_nil_r.
  - intros (a & ->). eexists. split; [done|].
    apply fnmatch_from_star. exists a, ".app/Info.plist". split; [done|].
    by vm_compute.
Qed.

Lemma fnmatch_nested_pattern (suffix n : string) :
  literal suffix = true →
  fnmatch n ("Payload/**/*" +:+ suffix) = true ↔
  ∃ a c, n = "Payload/" +:+ a +:+ "/" +:+ c +:+ suffix.
Proof.
  intros Hlit. unfold fnmatch.
  change ("Payload/**/*" +:+ suffix)
    with ("Payload/" +:+ String "*" (String "*"
            ("/" +:+ String "*" suffix))).
  rewrite fnmatch_from_literal by done. split.
  - intros (n1 & -> & (a1 & b1 & -> & H)%fnmatch_from_star).
    apply fnmatch_from_star in H as (a2 & b2 & -> & H).
    apply fnmatch_from_literal in H as (n2 & -> & H); [|done].
    apply fnmatch_from_star in H as (c & b3 & -> & H).
    apply fnmatch_from_literal_only in H as ->; [|done].
    exists (a1 +:+ a2), c. by rewrite !string_app_assoc.
  - intros (a & c & ->). eexists. split; [done|].
    apply fnmatch_from_star. exists a, ("/" +:+ c +:+ suffix). split; [done|].
    apply fnmatch_from_star. exists "", ("/" +:+ c +:+ suffix). split; [done|].
    apply (fnmatch_from_literal "/"); [done|]. eexists. split; [done|].
    apply fnmatch_from_star. exists c, suffix. split; [done|].
    by apply fnmatch_from_literal_only.
Qed.

(** What the three patterns accept together: the second one is covered by
    the first, whose star already crosses slashes. *)
Lemma matches_any_shapes (n : string) :
  matches_any n = true ↔
  (∃ a, n = "Payload/" +:+ a +:+ ".app/Info.plist") ∨
  (∃ a c, n = "Payload/" +:+ a +:+ "/" +:+ c +:+ ".appex/Info.plist").
Proof.
  unfold matches_any, pats. cbn [existsb]. rewrite orb_false_r, !orb_true_iff.
  rewrite fnmatch_app_pattern.
  rewrite (fnmatch_nested_pattern ".app/Info.plist") by done.
  rewrite (fnmatch_nested_pattern ".appex/Info.plist") by done.
  split.
  - intros [H|[(a & c & ->)|H]]; [by left| |by right].
    left. exists (a +:+ "/" +:+ c). by rewrite !string_app_assoc.
  - intros [H|H]; [by left|by right; right].
Qed.

(** *** Segments *)

Lemma segments_nonempty (p : string) : ∃ s ss, segments p = s :: ss.
Proof.
  induction p as [|c p (s & ss & IH)]; simpl; [by eexists _, _|].
  destruct (Ascii.eqb c "/"); [by eexists _, _|]. rewrite IH. by eexists _, _.
Qed.

Lemma segments_app_slash (x y : string) :
  segments (x +:+ "/" +:+ y) = segments x ++ segments y.
Proof.
  induction x as [|c x IH]; [done|].
  rewrite string_app_cons. simpl. rewrite IH.
  destruct (Ascii.eqb c "/"); [done|].
  by destruct (segments_nonempty x) as (s & ss & ->).
Qed.

Lemma segments_slash_free (t : string) :
  slash_free t = true → segments t = [t].
Proof.
  induction t as [|c t IH]; [done|]. simpl.
  intros [Hc Ht]%andb_true_iff. apply negb_true_iff in Hc. rewrite Hc.
  by rewrite IH.
Qed.

(** Appending slash-free text extends the last segment. *)
Lemma segments_app_slash_free (a t : string) :
  slash_free t = true →
  ∃ init last, segments a = init ++ [last] ∧
               segments (a +:+ t) = init ++ [last +:+ t].
Proof.
  intros Ht. induction a as [|c a (init & last & Ha & Hat)].
  - exists [], "". split; [done|]. by apply segments_slash_free.
  - rewrite string_app_cons. simpl. rewrite Ha, Hat.
    destruct (Ascii.eqb c "/").
    + by exists ("" :: init), last.
    + destruct init as [|i init]; simpl.
      * by exists [], (String c last).
      * by exists (String c i :: init), last.
Qed.

(** A path is its directories followed by its last segment. *)
Lemma segments_join (p : string) (mids : list string) (last : string) :
  segments p = mids ++ [last] → p = dirs mids +:+ last.
Proof.
  revert mids last. induction p as [|c p IH]; intros mids last; simpl.
  - destruct mids as [|m [|m' mids]]; simpl; [|done..]. by intros [= <-].
  - destruct (Ascii.eqb c "/") eqn:Hc.
    + apply Ascii.eqb_eq in Hc as ->.
      destruct mids as [|m mids]; simpl.
      * intros [= _ H]. by destruct (segments_nonempty p) as (? & ? & ?); congruence.
      * intros [= <- H]. by rewrite (IH _ _ H).
    + destruct (segments_nonempty p) as (s & ss & Hp). rewrite Hp.
      destruct mids as [|m mids]; simpl.
      * intros [= <- ->]. by rewrite (IH [] s Hp).
      * intros [= <- ->]. rewrite (IH (s :: mids) last Hp). simpl.
        by rewrite !string_app_cons.
Qed.

Lemma ends_with_spec (suffix s : string) :
  ends_with suffix s = true ↔ ∃ b, s = b +:+ suffix.
Proof.
  induction s as [|c s IH]; cbn [ends_with].
  - rewrite orb_false_r, String.eqb_eq. split.
    + intros <-. by exists "".
    + intros (b & Hb). destruct b; [done|]. by rewrite string_app_cons in Hb.
  - rewrite orb_true_iff, IH, String.eqb_eq. split.
    + intros [<-|(b & ->)]; [by exists ""|]. by exists (String c b).
    + intros ([|c' b] & Hb).
      * left. by rewrite Hb.
      * right. rewrite string_app_cons in Hb. injection Hb as -> ->.
        by exists b.
Qed.

Lemma last_char_app (s t : string) :
  t ≠ "" → last_char (s +:+ t) = last_char t.
Proof.
  intros Ht. induction s as [|c s IH]; [done|].
  rewrite string_app_cons. simpl. rewrite IH.
  destruct (s +:+ t) eqn:E; [|done].
  destruct s; [|done]. by rewrite string_app_nil_l in E.
Qed.

(** No name ends both in [.app] and in [.appex]. *)
Lemma app_is_not_appex (b b' : string) : b +:+ ".app" ≠ b' +:+ ".appex".
Proof.
  intros H. apply (f_equal last_char) in H.
  by rewrite !last_char_app in H.
Qed.

Lemma dirs_snoc (mids : list string) (m : string) :
  dirs (mids ++ [m]) = dirs mids +:+ m +:+ "/".
Proof.
  induction mids as [|m' mids IH]; simpl.
  - by rewrite string_app_nil_r.
  - by rewrite IH, !string_app_assoc.
Qed.

Lemma spec_glob_spec (suffix : string) (deep : bool) (path : string) :
  spec_glob suffix deep path = true ↔
  ∃ mids b,
    segments path = "Payload" :: mids ++ [b +:+ suffix; "Info.plist"] ∧
    (deep = false → mids = []).
Proof.
  unfold spec_glob. destruct (segments path) as [|root rest].
  { split; [done|]. by intros (? & ? & ? & _). }
  split.
  - intros [Hroot H]%andb_true_iff. apply String.eqb_eq in Hroot as ->.
    destruct (reverse rest) as [|file [|bundle mids]] eqn:Hrev; try done.
    apply andb_true_iff in H as [H Hdeep].
    apply andb_true_iff in H as [Hfile Hb].
    apply String.eqb_eq in Hfile as ->.
    apply ends_with_spec in Hb as (b & ->).
    exists (reverse mids), b. split.
    + f_equal. rewrite <- (reverse_involutive rest), Hrev.
      by rewrite !reverse_cons, <- app_assoc.
    + intros ->. by destruct mids.
  - intros (mids & b & [= -> ->] & Hdeep).
    rewrite reverse_app.
    change (reverse [b +:+ suffix; "Info.plist"])
      with ["Info.plist"; b +:+ suffix].
    cbn [app]. rewrite !String.eqb_refl. cbn [andb].
    rewrite (proj2 (ends_with_spec suffix (b +:+ suffix))) by by exists b.
    destruct deep; [done|]. by rewrite Hdeep.
Qed.

(** The segments of the paths that the first pattern accepts. *)
Lemma segments_app_shape (a : string) :
  ∃ mids b,
    segments ("Payload/" +:+ a +:+ ".app/Info.plist")
    = "Payload" :: mids ++ [b +:+ ".app"; "Info.plist"].
Proof.
  destruct (segments_app_slash_free a ".app") as (init & last & _ & Hat);
    [done|].
  exists init, last.
  change ("Payload/" +:+ a +:+ ".app/Info.plist")
    with ("Payload" +:+ "/" +:+ a +:+ ".app" +:+ "/" +:+ "Info.plist").
  rewrite segments_app_slash. rewrite <- string_app_assoc.
  rewrite segments_app_slash, Hat. simpl. by rewrite <- app_assoc.
Qed.

(** The segments of the paths that the third pattern accepts: at least one
    segment lies between [Payload] and the bundle. *)
Lemma segments_appex_shape (a c : string) :
  ∃ m mids b,
    segments ("Payload/" +:+ a +:+ "/" +:+ c +:+ ".appex/Info.plist")
    = "Payload" :: (m :: mids) ++ [b +:+ ".appex"; "Info.plist"].
Proof.
  destruct (segments_app_slash_free c ".appex") as (init & last & _ & Hct);
    [done|].
  destruct (segments_nonempty a) as (m & ms & Ha).
  exists m, (ms ++ init), last.
  change ("Payload/" +:+ a +:+ "/" +:+ c +:+ ".appex/Info.plist")
    with ("Payload" +:+ "/" +:+ a +:+ "/" +:+ c +:+ ".appex" +:+ "/" +:+ "Info.plist").
  rewrite !segments_app_slash. rewrite <- string_app_assoc.
  rewrite segments_app_slash, Hct, Ha. simpl. by rewrite <- !app_assoc.
Qed.

Lemma snoc2_inj {A} (l1 l2 : list A) (x1 y1 x2 y2 : A) :
  l1 ++ [x1; y1] = l2 ++ [x2; y2] → l1 = l2 ∧ x1 = x2.
Proof.
  intros H. apply app_inj_2 in H as [? [= ? ?]]; [done|done].
Qed.

(** The patterns as the code matches them accept what the three patterns
    accept in the specification's reading, apart from an extension bundle
    placed directly under [Payload]. *)
Lemma matches_any_spec_recognized (n : string) :
  matches_any n = true ↔ spec_recognized n = true ∧ top_level_appex n = false.
Proof.
  rewrite matches_any_shapes. unfold spec_recognized, top_level_appex.
  split.
  - intros [(a & ->)|(a & c & ->)].
    + destruct (segments_app_shape a) as (mids & b & Hseg). split.
      * apply orb_true_iff. left. apply orb_true_iff. right.
        apply spec_glob_spec. by exists mids, b.
      * apply not_true_is_false. intros (mids' & b' & H & _)%spec_glob_spec.
        rewrite Hseg in H. injection H as H.
        apply snoc2_inj in H as [_ H]. by apply app_is_not_appex in H.
    + destruct (segments_appex_shape a c) as (m & mids & b & Hseg). split.
      * apply orb_true_iff. right. apply spec_glob_spec.
        by exists (m :: mids), b.
      * apply not_true_is_false. intros (mids' & b' & H & Hd)%spec_glob_spec.
        rewrite Hseg, (Hd eq_refl) in H. apply (f_equal length) in H.
        simpl in H. rewrite length_app in H. simpl in H. lia.
  - intros [H Htop].
    assert (∀ deep, spec_glob ".app" deep n = true →
              ∃ a, n = "Payload/" +:+ a +:+ ".app/Info.plist") as Happ.
    { intros deep (mids & b & Hseg & _)%spec_glob_spec.
      exists (dirs mids +:+ b).
      rewrite (segments_join n ("Payload" :: mids ++ [b +:+ ".app"]) "Info.plist")
        by (by rewrite Hseg; simpl; rewrite <- app_assoc).
      simpl. rewrite dirs_snoc. by rewrite !string_app_assoc. }
    apply orb_true_iff in H as [H|H].
    { left. apply orb_true_iff in H as [H|H]; by eapply Happ. }
    right. apply spec_glob_spec in H as (mids & b & Hseg & _).
    destruct mids as [|m mids].
    { rewrite (proj2 (spec_glob_spec ".appex" false n)) in Htop; [done|].
      by exists [], b. }
    exists m, (dirs mids +:+ b).
    rewrite (segments_join n ("Payload" :: (m :: mids) ++ [b +:+ ".appex"])
               "Info.plist")
      by (by rewrite Hseg; simpl; rewrite <- app_assoc).
    simpl. rewrite dirs_snoc. by rewrite !string_app_assoc.
Qed.

(** C3 (as amended): the locator returns exactly the member paths that the
    three patterns accept in the specification's reading ([<name>] within
    one segment, [**] for zero or more segments), except an extension
    manifest with no segment between [Payload] and its bundle, which it
    does not return.  In the code's own terms, the stars of [fnmatch] cross
    slashes: a path is returned when it is [Payload/], anything,
    [.app/Info.plist], or [Payload/], anything, a slash, anything,
    [.appex/Info.plist]. *)
Theorem find_all_info_plists_recognized (names : list string) (p : string) :
  (p ∈ find_all_info_plists names ↔
   p ∈ names ∧ spec_recognized p = true ∧ top_level_appex p = false) ∧
  (p ∈ find_all_info_plists names ↔
   p ∈ names ∧
   ((∃ a, p = "Payload/" +:+ a +:+ ".app/Info.plist") ∨
    (∃ a c, p = "Payload/" +:+ a +:+ "/" +:+ c +:+ ".appex/Info.plist"))).
Proof.
  rewrite elem_of_find_all_info_plists. split.
  - by rewrite matches_any_spec_recognized.
  - by rewrite matches_any_shapes.
Qed.

(** C3 (as stated) fails: an extension manifest directly under [Payload]
    fits the third pattern when [**] stands for zero segments, and the
    locator does not return it. *)
Lemma top_level_appex_not_found :
  spec_glob ".appex" true "Payload/Ext.appex/Info.plist" = true ∧
  spec_recognized "Payload/Ext.appex/Info.plist" = true ∧
  find_all_info_plists ["Payload/Ext.appex/Info.plist"] = [].
Proof. by vm_compute. Qed.

(** The locator does find the manifests of the usual layouts. *)
Example find_all_info_plists_usual_layout :
  find_all_info_plists
    [ "Payload/"; "Payload/App.app/"; "Payload/App.app/Info.plist";
      "Payload/App.app/PlugIns/Share.appex/Info.plist";
      "Payload/App.app/Frameworks/UI.framework/Info.plist";
      "Payload/a/b/c/Deep.appex/Info.plist" ]
  = [ "Payload/App.app/Info.plist";
      "Payload/App.app/PlugIns/Share.appex/Info.plist";
      "Payload/a/b/c/Deep.appex/Info.plist" ].
Proof. by vm_compute. Qed.

(** ** The driver *)

Lemma parse_loop_entries z paths err res :
  (parse_loop z paths err res).2 = (res ++.) <$> entries z paths.
Proof.
  revert err res. induction paths as [|p paths IH]; intros err res; simpl.
  - by rewrite app_nil_r.
  - destruct (parse_plist z p) as [pl|msg]; [|by rewrite IH].
    destruct (summarize_pl pl) as [s|e]; simpl; [|done].
    rewrite IH. destruct (entries z paths); simpl; [|done].
    by rewrite <- app_assoc.
Qed.

Lemma parse_loop_warnings z paths err res es :
  entries z paths = Ok es →
  (parse_loop z paths err res).1 = err ++ warnings z paths.
Proof.
  revert err res es.
  induction paths as [|p paths IH]; intros err res es; simpl.
  - by rewrite app_nil_r.
  - destruct (parse_plist z p) as [pl|msg].
    + destruct (summarize_pl pl) as [s|e]; simpl; [|done].
      destruct (entries z paths) as [es'|] eqn:Hes; simpl; [|done].
      intros _. by eapply IH.
    + intros Hes. rewrite (IH _ _ _ Hes). by rewrite <- app_assoc.
Qed.

Lemma parse_loop_Ok z paths es :
  entries z paths = Ok es →
  parse_loop z paths [] [] = (warnings z paths, Ok es).
Proof.
  intros Hes. apply injective_projections.
  - by rewrite (parse_loop_warnings _ _ _ _ _ Hes).
  - by rewrite parse_loop_entries, Hes.
Qed.

Lemma parse_loop_Raise z paths e :
  entries z paths = Raise e →
  (parse_loop z paths [] []).2 = Raise e.
Proof. intros Hes. by rewrite parse_loop_entries, Hes. Qed.




Lemma entries_elem_of z paths es r :
  entries z paths = Ok es →
  r ∈ es ↔
  info_plist r ∈ paths ∧
  ∃ pl, parse_plist z (info_plist r) = Decoded pl ∧
        summarize_pl pl = Ok (summary_of r).
Proof.
  revert es. induction paths as [|p paths IH]; intros es; simpl.
  - intros [= <-]. rewrite !elem_of_nil. tauto.
  - destruct (parse_plist z p) as [pl|msg] eqn:Hp.
    + destruct (summarize_pl pl) as [s|] eqn:Hs; simpl; [|done].
      destruct (entries z paths) as [es'|]; simpl; [|done].
      intros [= <-]. rewrite !elem_of_cons, (IH es') by done. split.
      * intros [->|[Hin H]]; [|split; [by right|done]].
        simpl. split; [by left|by exists pl].
      * intros [[Hr|Hin] (pl' & Hp' & Hs')]; [|right; split; [done|by exists pl']].
        left. rewrite Hr, Hp in Hp'. injection Hp' as <-.
        rewrite Hs in Hs'. injection Hs' as Hs'.
        destruct r; simpl in *; by subst.
    + intros Hes. rewrite (IH es Hes), elem_of_cons. split.
      * intros [Hin H]. split; [by right|done].
      * intros [[Hr|Hin] (pl & Hp' & Hs)]; [|split; [done|by exists pl]].
        rewrite Hr, Hp in Hp'. done.
Qed.

Lemma entries_total z paths :
  (∀ p pl, p ∈ paths → parse_plist z p = Decoded pl →
           ∃ s, summarize_pl pl = Ok s) →
  ∃ es, entries z paths = Ok es.
Proof.
  induction paths as [|p paths IH]; intros H; simpl; [by eexists|].
  destruct IH as [es Hes]. { intros q pl Hq. apply H. by right. }
  destruct (parse_plist z p) as [pl|msg] eqn:Hp; [|by eexists].
  destruct (H p pl) as [s ->]; [by left|done|]. simpl. rewrite Hes. by eexists.
Qed.

Lemma entries_Raise z paths e :
  entries z paths = Raise e →
  ∃ p pl, p ∈ paths ∧ parse_plist z p = Decoded pl ∧ summarize_pl pl = Raise e.
Proof.
  induction paths as [|p paths IH]; simpl; [done|].
  destruct (parse_plist z p) as [pl|msg] eqn:Hp.
  - destruct (summarize_pl pl) as [s|e'] eqn:Hs; simpl.
    + destruct (entries z paths) as [es'|e'']; simpl; [done|].
      intros [= ->]. destruct IH as (q & pl' & ? & ? & ?); [done|].
      exists q, pl'. split; [by right|done].
    + intros [= ->]. exists p, pl. split; [by left|done].
  - intros He. destruct (IH He) as (q & pl' & ? & ? & ?).
    exists q, pl'. split; [by right|done].
Qed.

Lemma existsb_elem_of {A} (P : A → bool) (l : list A) :
  existsb P l = true ↔ ∃ x, x ∈ l ∧ P x = true.
Proof.
  rewrite existsb_exists. by setoid_rewrite list_elem_of_In.
Qed.

Lemma insecure_spec (results : list entry) :
  insecure results = true ↔
  ∃ r d, r ∈ results ∧ d ∈ domains (summary_of r) ∧
         effective_http_permitted d = true.
Proof.
  unfold insecure. rewrite existsb_elem_of. split.
  - intros (r & Hr & (d & Hd & He)%existsb_elem_of). by exists r, d.
  - intros (r & d & Hr & Hd & He). exists r. split; [done|].
    apply existsb_elem_of. by exists d.
Qed.

(** The verdict after filtering looks at the records that survive it. *)
Lemma insecure_apply_filter (filter_domain : option string) results :
  insecure (apply_filter filter_domain results) = true ↔
  ∃ r d, r ∈ results ∧ d ∈ domains (summary_of r) ∧
         kept filter_domain d = true ∧ effective_http_permitted d = true.
Proof.
  rewrite insecure_spec. unfold apply_filter, kept.
  destruct (filter_given filter_domain) eqn:Hg.
  - destruct filter_domain as [f|]; [|done].
    split.
    + intros (r' & d & Hr' & Hd & He).
      apply list_elem_of_In, in_map_iff in Hr' as (r & <- & Hr%list_elem_of_In).
      simpl in Hd. apply list_filter_elem_of in Hd as [Hd Hf].
      by exists r, d.
    + intros (r & d & Hr & Hd & Hf & He). exists (filter_entry f r), d.
      split_and!; [|by apply list_filter_elem_of|done].
      apply list_elem_of_In, in_map. by apply list_elem_of_In.
  - split; intros (r & d & ? & ? & ?); exists r, d; by intuition.
Qed.

Lemma summarize_pl_raises_AttributeError (pl : value) (e : exn) :
  summarize_pl pl = Raise e → e = AttributeError.
Proof.
  destruct pl as [| | | | |m| | |]; try by intros [= <-].
  rewrite summarize_pl_unfold.
  destruct (as_mapping (m !! ATS)) as [ats|]; [|by intros [= <-]].
  destruct (as_mapping (ats !! EXC)) as [exc|]; [|by intros [= <-]].
  destruct (mapM_result _ _) as [rows|e'] eqn:Hrows; simpl; [done|].
  intros [= ->]. apply mapM_result_Raise_inv in Hrows as ([k v] & _ & H).
  destruct v; first [by injection H | done].
Qed.

Lemma json_dumps_ok_apply_filter (filter_domain : option string) es :
  json_dumps_ok es = true → json_dumps_ok (apply_filter filter_domain es) = true.
Proof.
  unfold apply_filter.
  destruct (filter_given filter_domain), filter_domain as [f|]; try done.
  unfold json_dumps_ok. rewrite !forallb_forall. intros H r' Hr'.
  apply in_map_iff in Hr' as (r & <- & Hr). specialize (H r Hr).
  unfold json_ok_summary in *. cbn.
  apply andb_true_iff in H as [Htop Hrows]. rewrite Htop. cbn.
  rewrite forallb_forall in *. intros d Hd. apply Hrows.
  by apply filter_In in Hd as [? _].
Qed.

Lemma json_dumps_ok_entries z paths es :
  entries z paths = Ok es →
  (∀ p pl s, p ∈ paths → parse_plist z p = Decoded pl →
             summarize_pl pl = Ok s → json_ok_summary s = true) →
  json_dumps_ok es = true.
Proof.
  intros Hes H. unfold json_dumps_ok. apply forallb_forall. intros r Hr.
  apply list_elem_of_In, (entries_elem_of _ _ _ _ Hes) in Hr
    as [Hin (pl & Hpl & Hs)].
  by eapply H.
Qed.

Lemma verdict_Exit (filter_domain : option string) (json_mode : bool) es :
  json_mode = false ∨ json_dumps_ok (apply_filter filter_domain es) = true →
  verdict filter_domain json_mode es
  = Exit (if insecure (apply_filter filter_domain es) then 2 else 0).
Proof.
  unfold verdict. cbv zeta. intros [-> | ->]; [done|].
  by rewrite andb_false_r.
Qed.

Lemma verdict_json_safe (filter_domain : option string) json_mode z paths es :
  entries z paths = Ok es → json_safe json_mode z paths →
  verdict filter_domain json_mode es
  = Exit (if insecure (apply_filter filter_domain es) then 2 else 0).
Proof.
  intros Hes Hsafe. apply verdict_Exit.
  destruct json_mode; [right|by left].
  apply json_dumps_ok_apply_filter. eapply json_dumps_ok_entries; [done|].
  by apply Hsafe.
Qed.

(** [run] on an archive that opens and has recognized members. *)
Lemma run_Opened_entries fs ipa z filter_domain json_mode color_mode es :
  fs ipa = Opened z →
  find_all_info_plists (namelist z) ≠ [] →
  entries z (find_all_info_plists (namelist z)) = Ok es →
  run fs ipa filter_domain json_mode color_mode
  = (warnings z (find_all_info_plists (namelist z)),
     verdict filter_domain json_mode es).
Proof.
  intros Hfs Hne Hes. unfold run, verdict. rewrite Hfs.
  destruct (find_all_info_plists (namelist z)) as [|p paths] eqn:Hp; [done|].
  rewrite (parse_loop_Ok _ _ _ Hes). cbv zeta.
  destruct json_mode; [|done].
  by destruct (json_dumps_ok (apply_filter filter_domain es)).
Qed.

Lemma run_Opened_Ok fs ipa z filter_domain json_mode color_mode es :
  fs ipa = Opened z →
  find_all_info_plists (namelist z) ≠ [] →
  entries z (find_all_info_plists (namelist z)) = Ok es →
  json_safe json_mode z (find_all_info_plists (namelist z)) →
  run fs ipa filter_domain json_mode color_mode
  = (warnings z (find_all_info_plists (namelist z)),
     Exit (if insecure (apply_filter filter_domain es) then 2 else 0)).
Proof.
  intros Hfs Hne Hes Hsafe.
  rewrite (run_Opened_entries _ _ _ _ _ _ _ Hfs Hne Hes).
  by rewrite (verdict_json_safe _ _ _ _ _ Hes Hsafe).
Qed.

Lemma run_Opened_Raise fs ipa z filter_domain json_mode color_mode e :
  fs ipa = Opened z →
  entries z (find_all_info_plists (namelist z)) = Raise e →
  (run fs ipa filter_domain json_mode color_mode).2 = Uncaught AttributeError.
Proof.
  intros Hfs Hes. unfold run. rewrite Hfs.
  destruct (find_all_info_plists (namelist z)) as [|p paths] eqn:Hp; [done|].
  pose proof (parse_loop_Raise _ _ _ Hes) as Hl.
  destruct (parse_loop z (p :: paths) [] []) as [err r]. simpl in Hl. subst r.
  apply entries_Raise in Hes as (q & pl & _ & _ & He).
  by apply summarize_pl_raises_AttributeError in He as ->.
Qed.

Lemma find_all_info_plists_nil (names : list string) :
  find_all_info_plists names = [] ↔ ∀ p, p ∈ names → matches_any p = false.
Proof.
  split.
  - intros H p Hp. apply not_true_is_false. intros Hm.
    assert (p ∈ find_all_info_plists names) as Hin
      by by apply elem_of_find_all_info_plists.
    rewrite H in Hin. by apply elem_of_nil in Hin.
  - intros H. destruct (find_all_info_plists names) as [|p l] eqn:E; [done|].
    assert (p ∈ find_all_info_plists names) as Hin by (rewrite E; by left).
    apply elem_of_find_all_info_plists in Hin as [Hin Hm].
    by rewrite (H p Hin) in Hm.
Qed.

Lemma list_filter_comm {A} (P Q : A → bool) (l : list A) :
  List.filter P (List.filter Q l) = List.filter Q (List.filter P l).
Proof.
  induction l as [|x l IH]; simpl; [done|].
  destruct (Q x) eqn:HQ, (P x) eqn:HP; simpl; rewrite ?HQ, ?HP, IH; done.
Qed.

(** Removing members from the archive and removing them from the locator's
    result come to the same. *)
Lemma dedup_loop_filter (Q : string → bool) (l : list string) :
  ∀ st st' : gset string * list string,
    st'.2 = List.filter Q st.2 →
    (∀ x, Q x = true → x ∈ st'.1 ↔ x ∈ st.1) →
    (foldl dedup_step st' (List.filter Q l)).2
    = List.filter Q (foldl dedup_step st l).2.
Proof.
  induction l as [|x l IH]; intros st st' H2 H1; simpl; [done|].
  destruct (Q x) eqn:HQ; simpl.
  - apply IH; unfold dedup_step.
    + destruct (decide (x ∈ st'.1)) as [Hx|Hx], (decide (x ∈ st.1)) as [Hy|Hy];
        simpl; try done.
      * by apply H1 in Hx.
      * by apply H1 in Hy.
      * rewrite List.filter_app, H2. simpl. by rewrite HQ.
    + intros y Hy.
      destruct (decide (x ∈ st'.1)) as [Hx|Hx], (decide (x ∈ st.1)) as [Hx'|Hx'];
        simpl; try (by apply H1).
      * by apply H1 in Hx.
      * by apply H1 in Hx'.
      * rewrite !elem_of_union. by rewrite (H1 y Hy).
  - apply IH; unfold dedup_step.
    + destruct (decide (x ∈ st.1)); simpl; [done|].
      rewrite List.filter_app, H2. simpl. by rewrite HQ, app_nil_r.
    + intros y Hy. destruct (decide (x ∈ st.1)); simpl; [by apply H1|].
      rewrite elem_of_union, elem_of_singleton, (H1 y Hy).
      split; [by left|]. intros [?| ->]; [done|congruence].
Qed.

Lemma find_all_info_plists_filter (Q : string → bool) (names : list string) :
  find_all_info_plists (List.filter Q names)
  = List.filter Q (find_all_info_plists names).
Proof.
  unfold find_all_info_plists. cbv zeta. rewrite list_filter_comm.
  by apply dedup_loop_filter.
Qed.

(** C2 (as amended): when opening the archive raises nothing but the two
    errors that [run] catches, the evaluator raises on no decoded manifest
    and, in JSON mode, no summary holds a value that [json.dumps] rejects
    (data, date, UID), the exit status is one of 0, 2 and 3: it is 3
    exactly when
    the archive is missing or is not a zip file, or holds no recognized
    manifest member; it is 2 exactly when some record that survives the
    domain filter, in some recognized manifest that decodes, has
    [effective_http_permitted] true; and it is 0 otherwise. *)
Theorem run_exit_status (fs : string → open_result) (ipa_path : string)
    (filter_domain : option string) (json_mode : bool) (color_mode : string) :
  (∀ e, fs ipa_path = OpenRaises e → caught e = true) →
  (∀ z p pl, fs ipa_path = Opened z → p ∈ namelist z → matches_any p = true →
             parse_plist z p = Decoded pl → ∃ s, summarize_pl pl = Ok s) →
  (json_mode = true →
   ∀ z p pl s, fs ipa_path = Opened z → p ∈ namelist z →
               matches_any p = true → parse_plist z p = Decoded pl →
               summarize_pl pl = Ok s → json_ok_summary s = true) →
  let rc := (run fs ipa_path filter_domain json_mode color_mode).2 in
  (rc = Exit 0 ∨ rc = Exit 2 ∨ rc = Exit 3) ∧
  (rc = Exit 3 ↔
     (∃ e, fs ipa_path = OpenRaises e) ∨
     (∃ z, fs ipa_path = Opened z ∧
           ∀ p, p ∈ namelist z → matches_any p = false)) ∧
  (rc = Exit 2 ↔
     ∃ z p pl s d,
       fs ipa_path = Opened z ∧ p ∈ namelist z ∧ matches_any p = true ∧
       parse_plist z p = Decoded pl ∧ summarize_pl pl = Ok s ∧
       d ∈ domains s ∧ kept filter_domain d = true ∧
       effective_http_permitted d = true).
Proof.
  intros Hopen Heval Hjson rc. subst rc.
  destruct (fs ipa_path) as [z|e] eqn:Hfs.
  - destruct (find_all_info_plists (namelist z)) as [|p0 paths0] eqn:Hpaths.
    + (* no recognized member *)
      assert ((run fs ipa_path filter_domain json_mode color_mode).2 = Exit 3)
        as -> by (unfold run; by rewrite Hfs, Hpaths).
      pose proof (proj1 (find_all_info_plists_nil _) Hpaths) as Hnone.
      split_and!; [by auto| |].
      * split; [|done]. intros _. right. by exists z.
      * split; [done|].
        intros (z' & p & pl & s & d & [= <-] & Hp & Hm & _).
        by rewrite (Hnone p Hp) in Hm.
    + destruct (entries_total z (find_all_info_plists (namelist z)))
        as [es Hes].
      { intros p pl [Hp Hm]%elem_of_find_all_info_plists. by apply Heval. }
      rewrite (run_Opened_Ok fs ipa_path z _ _ _ es Hfs);
        [|by rewrite Hpaths|done|].
      2:{ intros Hj p pl s [Hp Hm]%elem_of_find_all_info_plists.
          by apply (Hjson Hj z). }
      cbn [snd].
      assert (insecure (apply_filter filter_domain es) = true ↔
              ∃ z' p pl s d,
                Opened z = Opened z' ∧ p ∈ namelist z' ∧ matches_any p = true ∧
                parse_plist z' p = Decoded pl ∧ summarize_pl pl = Ok s ∧
                d ∈ domains s ∧ kept filter_domain d = true ∧
                effective_http_permitted d = true) as Hins.
      { rewrite insecure_apply_filter. split.
        - intros (r & d & Hr & Hd & Hk & He).
          apply (entries_elem_of _ _ _ _ Hes) in Hr as [Hin (pl & Hpl & Hs)].
          apply elem_of_find_all_info_plists in Hin as [Hin Hm].
          by exists z, (info_plist r), pl, (summary_of r), d.
        - intros (z' & p & pl & s & d & [= <-] & Hp & Hm & Hpl & Hs & Hd & Hk & He).
          exists {| info_plist := p; summary_of := s |}, d.
          split_and!; try done.
          apply (entries_elem_of _ _ _ _ Hes). simpl. split.
          + by apply elem_of_find_all_info_plists.
          + by exists pl. }
      destruct (insecure (apply_filter filter_domain es)) eqn:Hi.
      * split_and!; [by auto| |].
        -- split; [done|]. intros [[e [=]]|(z' & [= <-] & Hnone)].
           assert (p0 ∈ find_all_info_plists (namelist z)) as Hin
             by (rewrite Hpaths; by left).
           apply elem_of_find_all_info_plists in Hin as [Hin Hm].
           by rewrite (Hnone p0 Hin) in Hm.
        -- split; [intros _; by apply Hins|done].
      * split_and!; [by auto| |].
        -- split; [done|]. intros [[e [=]]|(z' & [= <-] & Hnone)].
           assert (p0 ∈ find_all_info_plists (namelist z)) as Hin
             by (rewrite Hpaths; by left).
           apply elem_of_find_all_info_plists in Hin as [Hin Hm].
           by rewrite (Hnone p0 Hin) in Hm.
        -- split; [done|]. intros H. apply Hins in H. done.
  - assert ((run fs ipa_path filter_domain json_mode color_mode).2 = Exit 3)
      as -> by (unfold run; by rewrite Hfs, (Hopen e eq_refl)).
    split_and!; [by auto| |].
    + split; [|done]. intros _. left. by exists e.
    + split; [done|]. by intros (z' & p & pl & s & d & [=] & _).
Qed.

Lemma run_exit_status_witness :
  let rc := (run (fs_single (VDict tree_http_domain)) "app.ipa" None false
               "always").2 in
  rc = Exit 0 ∨ rc = Exit 2 ∨ rc = Exit 3.
Proof.
  refine (proj1 (run_exit_status (fs_single (VDict tree_http_domain))
                   "app.ipa" None false "always" _ _ _)).
  - intros e H. discriminate H.
  - intros z p pl H _ _. injection H as <-. simpl. intros [= <-].
    eexists. vm_compute. reflexivity.
  - discriminate.
Defined.

(** C2 (as stated) fails: a manifest whose security section is a string
    ends the run with an exception that nothing catches, which is none of
    the three exit statuses. *)
Lemma run_uncaught_on_string_section :
  let rc := (run (fs_single (VDict tree_section_string)) "app.ipa" None false
               "always").2 in
  rc = Uncaught AttributeError ∧ ¬ (rc = Exit 0 ∨ rc = Exit 2 ∨ rc = Exit 3).
Proof.
  assert ((run (fs_single (VDict tree_section_string)) "app.ipa" None false
             "always").2 = Uncaught AttributeError) as H
    by (vm_compute; reflexivity).
  cbv zeta. rewrite H. split; [done|]. by intros [|[|]].
Qed.






(** One corrupt manifest among three: two summaries, one warning, and the
    exit status of the two sound manifests. *)
Example run_one_corrupt_of_three :
  parse_loop one_corrupt_of_three
    (find_all_info_plists (namelist one_corrupt_of_three)) [] []
  = ([ CouldNotParse "Payload/App.app/PlugIns/Bad.appex/Info.plist"
         "Invalid file" ],
     entries one_corrupt_of_three
       [ "Payload/App.app/Info.plist";
         "Payload/App.app/PlugIns/Good.appex/Info.plist" ]) ∧
  (run (λ _, Opened one_corrupt_of_three) "app.ipa" None false "always").2
  = Exit 2.
Proof. split; vm_compute; reflexivity. Qed.

(** C8 (as amended): a domain filter that is the empty string is not
    applied: the run is the one without a filter.  With a filter that is
    a non-empty string, in a run that has recognized manifests, in which
    the evaluator raises on no decoded manifest (and, in JSON mode, no
    summary holds a value that [json.dumps] rejects), if every record with
    [effective_http_permitted] true has a name different from the filter,
    the exit status is 0; without the filter the same run ends with 2 as
    soon as such a record exists. *)
Theorem filtered_out_records_do_not_count (fs : string → open_result)
    (ipa_path : string) (z : archive) (f : string)
    (json_mode : bool) (color_mode : string) :
  run fs ipa_path (Some "") json_mode color_mode
  = run fs ipa_path None json_mode color_mode ∧
  (fs ipa_path = Opened z →
   f ≠ "" →
   let paths := find_all_info_plists (namelist z) in
   paths ≠ [] →
   (∀ p pl, p ∈ paths → parse_plist z p = Decoded pl →
            ∃ s, summarize_pl pl = Ok s) →
   (json_mode = true →
    ∀ p pl s, p ∈ paths → parse_plist z p = Decoded pl →
              summarize_pl pl = Ok s → json_ok_summary s = true) →
   (∀ p pl s d, p ∈ paths → parse_plist z p = Decoded pl →
                summarize_pl pl = Ok s → d ∈ domains s →
                effective_http_permitted d = true → domain d ≠ f) →
   (run fs ipa_path (Some f) json_mode color_mode).2 = Exit 0 ∧
   ((∃ p pl s d, p ∈ paths ∧ parse_plist z p = Decoded pl ∧
                 summarize_pl pl = Ok s ∧ d ∈ domains s ∧
                 effective_http_permitted d = true) →
    (run fs ipa_path None json_mode color_mode).2 = Exit 2)).
Proof.
  split; [reflexivity|].
  intros Hfs Hf paths Hne Heval Hjson Hmiss.
  destruct (entries_total z paths Heval) as [es Hes].
  rewrite !(run_Opened_Ok fs ipa_path z _ _ _ es Hfs Hne Hes Hjson). cbn [snd].
  split.
  - destruct (insecure (apply_filter (Some f) es)) eqn:Hi; [|done].
    apply insecure_apply_filter in Hi as (r & d & Hr & Hd & Hk & He).
    apply (entries_elem_of _ _ _ _ Hes) in Hr as [Hin (pl & Hpl & Hs)].
    unfold kept, filter_given in Hk.
    rewrite (proj2 (String.eqb_neq f "") Hf) in Hk. simpl in Hk.
    apply String.eqb_eq in Hk.
    by destruct (Hmiss _ _ _ _ Hin Hpl Hs Hd He).
  - intros (p & pl & s & d & Hp & Hpl & Hs & Hd & He).
    rewrite (proj2 (insecure_apply_filter None es)); [done|].
    exists {| info_plist := p; summary_of := s |}, d. split_and!; try done.
    apply (entries_elem_of _ _ _ _ Hes). split; [done|by exists pl].
Qed.

Lemma filtered_out_records_do_not_count_witness :
  (run (fs_single (VDict tree_http_domain)) "app.ipa" (Some "other.example")
     true "always").2 = Exit 0.
Proof.
  refine (proj1 (proj2 (filtered_out_records_do_not_count
    (fs_single (VDict tree_http_domain)) "app.ipa"
    (single_manifest (VDict tree_http_domain)) "other.example" true "always")
    eq_refl _ _ _ _ _)).
  - discriminate.
  - vm_compute. discriminate.
  - intros p pl _ [= <-]. eexists. vm_compute. reflexivity.
  - intros _ p pl s _ [= <-] Hs. vm_compute in Hs. injection Hs as <-.
    vm_compute. reflexivity.
  - intros p pl s d _ [= <-] Hs Hd _.
    vm_compute in Hs. injection Hs as <-.
    apply list_elem_of_singleton in Hd as ->. vm_compute. discriminate.
Defined.

(** C8 (as stated) fails for the empty filter: the only record with an
    effective permission is named [example.com], which the empty string
    does not match, and the run still exits with 2, because an empty
    filter is not applied. *)
Lemma empty_filter_is_not_applied :
  (∀ s d, summarize_pl (VDict tree_http_domain) = Ok s → d ∈ domains s →
          String.eqb (domain d) "" = false) ∧
  (run (fs_single (VDict tree_http_domain)) "app.ipa" (Some "") false
     "always").2 = Exit 2.
Proof.
  split; [|vm_compute; reflexivity].
  intros s d Hs Hd. vm_compute in Hs. injection Hs as <-.
  by apply list_elem_of_singleton in Hd as ->.
Qed.

(** C10: a manifest without the network-security key has the summary with
    the three bundle-wide flags absent and no domain record; adding its
    entry to the results leaves the verdict as it was, and an archive made
    of such a manifest alone exits with 0. *)
Theorem no_security_section_is_secure (pl : gmap string value) :
  pl !! ATS = None →
  summarize_pl (VDict pl) = Ok empty_summary ∧
  (∀ p results,
     insecure (results ++ [{| info_plist := p; summary_of := empty_summary |}])
     = insecure results) ∧
  (∀ p, insecure [{| info_plist := p; summary_of := empty_summary |}] = false) ∧
  (∀ fs ipa_path z p filter_domain json_mode color_mode,
     fs ipa_path = Opened z →
     find_all_info_plists (namelist z) = [p] →
     parse_plist z p = Decoded (VDict pl) →
     run fs ipa_path filter_domain json_mode color_mode = ([], Exit 0)).
Proof.
  intros Hats.
  assert (summarize_pl (VDict pl) = Ok empty_summary) as Hs.
  { rewrite summarize_pl_unfold, Hats. reflexivity. }
  split_and!; [done| | |].
  - intros p results. unfold insecure. rewrite existsb_app. simpl.
    by rewrite !orb_false_r.
  - done.
  - intros fs ipa_path z p filter_domain json_mode color_mode Hfs Hp Hpl.
    rewrite (run_Opened_Ok fs ipa_path z _ _ _
               [{| info_plist := p; summary_of := empty_summary |}] Hfs).
    + rewrite Hp. simpl. rewrite Hpl. f_equal. f_equal. unfold apply_filter.
      by destruct (filter_given filter_domain), filter_domain.
    + by rewrite Hp.
    + rewrite Hp. simpl. by rewrite Hpl, Hs.
    + intros _ q pl' s'. rewrite Hp. intros ->%list_elem_of_singleton.
      rewrite Hpl. intros [= <-]. rewrite Hs. by intros [= <-].
Qed.

Lemma no_security_section_is_secure_witness :
  summarize_pl (VDict {[ "CFBundleIdentifier" := VStr "com.example.app" ]})
  = Ok empty_summary.
Proof.
  refine (proj1 (no_security_section_is_secure
    {[ "CFBundleIdentifier" := VStr "com.example.app" ]} _)).
  vm_compute. reflexivity.
Defined.

(** * Further properties of the evaluator *)

#[local] Instance item_le_total : Total item_le.
Proof. intros x y. apply String.le_total. Qed.

#[local] Instance item_le_trans : Transitive item_le.
Proof. intros x y z. unfold item_le. apply (transitivity (R := String.le)). Qed.

Lemma leb_ne_ltb (a b : string) :
  String.le a b → a ≠ b → String.ltb a b = true.
Proof.
  unfold String.le, String.leb, String.ltb. intros Hle Hne.
  destruct (String.compare a b) eqn:E; [|done|done].
  by apply String.compare_eq_iff in E.
Qed.

Lemma StronglySorted_strict (l : list string) :
  StronglySorted String.le l → NoDup l →
  StronglySorted (λ a b, String.ltb a b = true) l.
Proof.
  induction 1 as [|a l Hl IH Hall]; intros Hnd; [constructor|].
  apply NoDup_cons in Hnd as [Ha Hnd]. constructor; [by apply IH|].
  apply Forall_forall. intros b Hb. apply leb_ne_ltb.
  - by eapply Forall_forall in Hall.
  - by intros ->.
Qed.

Lemma make_row_domain top it d : make_row top it = Ok d → domain d = it.1.
Proof.
  destruct it as [k v]. destruct v; try done.
  rewrite make_row_dict. by intros [= <-].
Qed.

(** The names of the records are the keys of the exception mapping, in
    sorted order. *)
Lemma summarize_pl_domain_names (m : gmap string value) (s : summary) :
  summarize_pl (VDict m) = Ok s →
  ∃ ats exc,
    as_mapping (m !! ATS) = Some ats ∧ as_mapping (ats !! EXC) = Some exc ∧
    top_level s = tops ats ∧
    domain <$> domains s = (merge_sort item_le (map_to_list exc)).*1.
Proof.
  rewrite summarize_pl_unfold.
  destruct (as_mapping (m !! ATS)) as [ats|] eqn:Hats; [|done].
  destruct (as_mapping (ats !! EXC)) as [exc|] eqn:Hexc; [|done].
  destruct (mapM_result _ _) as [rows|] eqn:Hrows; [|done].
  simpl. intros [= <-]. exists ats, exc. split_and!; try done. simpl.
  apply mapM_result_Ok_inv in Hrows.
  induction Hrows as [|it d items rows Hd _ IH]; [done|].
  csimpl. by rewrite IH, (make_row_domain _ _ _ Hd).
Qed.

Lemma domains_strictly_sorted_aux (pl : value) (s : summary) :
  summarize_pl pl = Ok s → NoDup (domain <$> domains s).
Proof.
  intros Hs. destruct pl as [| | | | |m| | |]; try discriminate.
  destruct (summarize_pl_domain_names m s Hs) as (ats & exc & _ & _ & _ & ->).
  rewrite merge_sort_Permutation. apply NoDup_fst_map_to_list.
Qed.

(** X1: the domain records of a summary are in strictly increasing order
    of their names, so no two records of one manifest share a name. *)
Theorem domains_strictly_sorted (pl : value) (s : summary) :
  summarize_pl pl = Ok s →
  StronglySorted (λ a b, String.ltb a b = true) (domain <$> domains s) ∧
  NoDup (domain <$> domains s).
Proof.
  intros Hs. destruct pl as [| | | | |m| | |]; try discriminate.
  destruct (summarize_pl_domain_names m s Hs) as (ats & exc & _ & _ & _ & ->).
  assert (NoDup (merge_sort item_le (map_to_list exc)).*1) as Hnd.
  { rewrite merge_sort_Permutation. apply NoDup_fst_map_to_list. }
  split; [|done]. apply StronglySorted_strict; [|done].
  apply (StronglySorted_fmap fst item_le); [done|].
  apply StronglySorted_merge_sort; apply _.
Qed.

Lemma domains_strictly_sorted_witness :
  StronglySorted (λ a b, String.ltb a b = true)
    (domain <$> domains summary_two_domains) ∧
  NoDup (domain <$> domains summary_two_domains).
Proof.
  apply (domains_strictly_sorted (VDict tree_two_domains)).
  vm_compute. reflexivity.
Defined.

(** X2: a summary has one record for each exception domain of the
    manifest: the record names are the keys of the exception-domains
    mapping, each once, and there are as many records as keys. *)
Theorem one_record_per_exception_domain
    (m ats exc : gmap string value) (s : summary) :
  m !! ATS = Some (VDict ats) → ats !! EXC = Some (VDict exc) →
  summarize_pl (VDict m) = Ok s →
  domain <$> domains s ≡ₚ (map_to_list exc).*1 ∧
  length (domains s) = size exc ∧
  (∀ name, name ∈ (domain <$> domains s) ↔ is_Some (exc !! name)).
Proof.
  intros Hats Hexc Hs.
  destruct (summarize_pl_domain_names m s Hs)
    as (ats' & exc' & Hats' & Hexc' & _ & Hnames).
  rewrite Hats in Hats'. injection Hats' as <-.
  rewrite Hexc in Hexc'. injection Hexc' as <-.
  assert (domain <$> domains s ≡ₚ (map_to_list exc).*1) as Hperm.
  { rewrite Hnames. by rewrite merge_sort_Permutation. }
  split_and!; [done| |].
  - rewrite <- length_map_to_list, <- (length_fmap fst (map_to_list exc)).
    rewrite <- Hperm. by rewrite length_fmap.
  - intros name. rewrite Hperm, list_elem_of_fmap. split.
    + intros ([k v] & -> & Hkv%elem_of_map_to_list). by exists v.
    + intros [v Hv]. exists (name, v). split; [done|].
      by apply elem_of_map_to_list.
Qed.

Lemma one_record_per_exception_domain_witness :
  length (domains summary_two_domains) = size exc_two_domains.
Proof.
  refine (proj1 (proj2 (one_record_per_exception_domain
    tree_two_domains ats_two_domains exc_two_domains summary_two_domains
    _ _ _))); vm_compute; reflexivity.
Defined.

(** X3: the flags of a summary are copies of what the tree holds.  The
    three bundle-wide flags are the values under the keys of
    [ATS_TOP_KEYS] in the security section (each [None] when the section is
    absent or holds a false value), whether or not the summary has a
    record; and the eight raw flags of every record are the values under
    the keys of [DOMAIN_KEYS] in the dict of the record's domain, with
    [None] for a key that is absent. *)
Theorem flags_copied_verbatim (pl : value) (s : summary) :
  summarize_pl pl = Ok s →
  ∃ m ats : gmap string value,
    pl = VDict m ∧ as_mapping (m !! ATS) = Some ats ∧
    top_flags (top_level s) = (λ k, ats !! k) <$> ATS_TOP_KEYS ∧
    ∀ d, d ∈ domains s →
      ∃ exc cfg : gmap string value,
        m !! ATS = Some (VDict ats) ∧
        ats !! EXC = Some (VDict exc) ∧ exc !! domain d = Some (VDict cfg) ∧
        raw_flags d = (λ k, cfg !! k) <$> DOMAIN_KEYS.
Proof.
  intros Hs. destruct pl as [| | | | |m| | |]; try discriminate.
  destruct (summarize_pl_domain_names m s Hs) as (ats & exc0 & Hats & _ & Htop & _).
  exists m, ats. split_and!; try done.
  - by rewrite Htop.
  - intros d Hd.
    destruct (summarize_pl_row_inv _ s d Hs Hd)
      as (m' & ats' & exc & cfg & [= <-] & Hats' & Hexc & Hcfg & _ & Hrow).
    rewrite Hats' in Hats. injection Hats as ->.
    exists exc, cfg. split_and!; try done. by rewrite Hrow.
Qed.

Lemma flags_copied_verbatim_witness :
  ∃ m ats : gmap string value,
    VDict tree_global_only = VDict m ∧ as_mapping (m !! ATS) = Some ats ∧
    top_flags {| NSAllowsArbitraryLoads := Some (VBool true);
                 NSAllowsArbitraryLoadsInWebContent := None;
                 NSAllowsArbitraryLoadsForMedia := None |}
    = (λ k, ats !! k) <$> ATS_TOP_KEYS.
Proof.
  destruct (flags_copied_verbatim (VDict tree_global_only)
              {| top_level :=
                   {| NSAllowsArbitraryLoads := Some (VBool true);
                      NSAllowsArbitraryLoadsInWebContent := None;
                      NSAllowsArbitraryLoadsForMedia := None |};
                 domains := [] |})
    as (m & ats & Hm & Hats & Htop & _).
  - vm_compute. reflexivity.
  - by exists m, ats.
Defined.

Lemma row_of_ext top name (cfg1 cfg2 : gmap string value) :
  (∀ k, k ∈ DOMAIN_KEYS → cfg1 !! k = cfg2 !! k) →
  row_of top name cfg1 = row_of top name cfg2.
Proof.
  intros H. unfold row_of.
  rewrite !(H "NSExceptionAllowsInsecureHTTPLoads"),
    !(H "NSTemporaryExceptionAllowsInsecureHTTPLoads"),
    !(H "NSIncludesSubdomains"), !(H "NSRequiresCertificateTransparency"),
    !(H "NSExceptionMinimumTLSVersion"),
    !(H "NSTemporaryExceptionMinimumTLSVersion"),
    !(H "NSExceptionRequiresForwardSecrecy"),
    !(H "NSTemporaryExceptionRequiresForwardSecrecy");
    first [done | unfold DOMAIN_KEYS; set_solver].
Qed.

(** X4: the evaluator reads nothing but the recognized keys.  Two trees
    with the same value under the network-security key have the same
    summary; two security sections that agree on the exception-domains key
    and on the keys of [ATS_TOP_KEYS] give the same summary; and two
    domain dicts that agree on the keys of [DOMAIN_KEYS] give the same
    record. *)
Theorem summarize_pl_reads_only_recognized_keys :
  (∀ pl1 pl2 : gmap string value,
     pl1 !! ATS = pl2 !! ATS →
     summarize_pl (VDict pl1) = summarize_pl (VDict pl2)) ∧
  (∀ pl ats1 ats2 : gmap string value,
     (∀ k, k ∈ EXC :: ATS_TOP_KEYS → ats1 !! k = ats2 !! k) →
     summarize_pl (VDict (<[ATS := VDict ats1]> pl))
     = summarize_pl (VDict (<[ATS := VDict ats2]> pl))) ∧
  (∀ top name (cfg1 cfg2 : gmap string value),
     (∀ k, k ∈ DOMAIN_KEYS → cfg1 !! k = cfg2 !! k) →
     make_row top (name, VDict cfg1) = make_row top (name, VDict cfg2)).
Proof.
  split_and!.
  - intros pl1 pl2 H. by rewrite !summarize_pl_unfold, H.
  - intros pl ats1 ats2 H.
    rewrite !summarize_pl_unfold, !lookup_insert_eq. cbn [as_mapping].
    assert (tops ats1 = tops ats2) as ->.
    { unfold tops.
      rewrite (H "NSAllowsArbitraryLoads"),
        (H "NSAllowsArbitraryLoadsInWebContent"),
        (H "NSAllowsArbitraryLoadsForMedia");
        first [done | unfold ATS_TOP_KEYS; set_solver]. }
    by rewrite (H EXC) by set_solver.
  - intros top name cfg1 cfg2 H. rewrite !make_row_dict.
    by rewrite (row_of_ext top name cfg1 cfg2 H).
Qed.

Lemma summarize_pl_reads_only_recognized_keys_witness :
  summarize_pl (VDict (<["CFBundleName" := VStr "App"]> tree_http_domain))
  = summarize_pl (VDict tree_http_domain).
Proof.
  apply (proj1 summarize_pl_reads_only_recognized_keys).
  vm_compute. reflexivity.
Defined.

(** * Further properties of the driver *)

Lemma entries_Ok_all z paths es p pl :
  entries z paths = Ok es → p ∈ paths → parse_plist z p = Decoded pl →
  ∃ s, summarize_pl pl = Ok s.
Proof.
  revert es. induction paths as [|q paths IH]; intros es Hes Hp Hpl.
  - by apply elem_of_nil in Hp.
  - simpl in Hes. destruct (parse_plist z q) as [pl'|msg] eqn:Hq.
    + destruct (summarize_pl pl') as [s|] eqn:Hs; simpl in Hes; [|done].
      destruct (entries z paths) as [es'|]; simpl in Hes; [|done].
      apply elem_of_cons in Hp as [->|Hp]; [|by eapply IH].
      rewrite Hq in Hpl. injection Hpl as <-. by exists s.
    + apply elem_of_cons in Hp as [->|Hp]; [congruence|by eapply IH].
Qed.

(** The diagnostics of the loop are warnings of members that fail to
    decode, in order, up to the point where the loop ends. *)
Lemma parse_loop_warnings_prefix z paths err res :
  ∃ w, (parse_loop z paths err res).1 = err ++ w ∧
       w `prefix_of` warnings z paths.
Proof.
  revert err res. induction paths as [|p paths IH]; intros err res; simpl.
  - exists []. by rewrite app_nil_r.
  - destruct (parse_plist z p) as [pl|msg].
    + destruct (summarize_pl pl) as [s|e]; simpl.
      * apply IH.
      * exists []. rewrite app_nil_r. split; [done|]. apply prefix_nil.
    + destruct (IH (err ++ [CouldNotParse p msg]) res) as (w & -> & Hw).
      exists (CouldNotParse p msg :: w). rewrite <- app_assoc. split; [done|].
      by apply prefix_cons.
Qed.

Lemma verdict_cases (filter_domain : option string) (json_mode : bool) es :
  verdict filter_domain json_mode es = Exit 0 ∨
  verdict filter_domain json_mode es = Exit 2 ∨
  verdict filter_domain json_mode es = Uncaught TypeError.
Proof.
  unfold verdict. cbv zeta.
  destruct (json_mode && negb _); [by auto|].
  destruct (insecure _); by auto.
Qed.

(** The ways a run can go. *)
Lemma run_cases fs ipa filter_domain json_mode color_mode :
  match fs ipa with
  | OpenRaises e =>
      run fs ipa filter_domain json_mode color_mode
      = if caught e then ([ErrorOpeningIPA e], Exit 3) else ([], Uncaught e)
  | Opened z =>
      let paths := find_all_info_plists (namelist z) in
      (paths = [] ∧
       run fs ipa filter_domain json_mode color_mode
       = ([InfoPlistNotFound], Exit 3)) ∨
      (paths ≠ [] ∧ ∃ es, entries z paths = Ok es ∧
       run fs ipa filter_domain json_mode color_mode
       = (warnings z paths, verdict filter_domain json_mode es)) ∨
      (paths ≠ [] ∧ ∃ e w, entries z paths = Raise e ∧
       w `prefix_of` warnings z paths ∧
       run fs ipa filter_domain json_mode color_mode
       = (w, Uncaught AttributeError))
  end.
Proof.
  destruct (fs ipa) as [z|e] eqn:Hfs.
  - cbv zeta.
    destruct (find_all_info_plists (namelist z)) as [|p0 paths0] eqn:Hpaths.
    { left. split; [done|]. unfold run. by rewrite Hfs, Hpaths. }
    right. rewrite <- Hpaths.
    assert (find_all_info_plists (namelist z) ≠ []) as Hne by by rewrite Hpaths.
    destruct (entries z (find_all_info_plists (namelist z))) as [es|e] eqn:Hes.
    + left. split; [done|]. exists es. split; [done|].
      by apply run_Opened_entries.
    + right. split; [done|].
      destruct (parse_loop_warnings_prefix z
                  (find_all_info_plists (namelist z)) [] []) as (w & Hw1 & Hw).
      exists e, w. split_and!; try done.
      pose proof (run_Opened_Raise fs ipa z filter_domain json_mode
                    color_mode e Hfs Hes) as Hrc.
      pose proof (parse_loop_Raise _ _ _ Hes) as Hl.
      unfold run in *. rewrite Hfs in *. rewrite Hpaths in *.
      destruct (parse_loop z (p0 :: paths0) [] []) as [err r].
      simpl in Hl, Hw1. subst r err.
      apply entries_Raise in Hes as (q & pl & _ & _ & He).
      by apply summarize_pl_raises_AttributeError in He as ->.
  - unfold run. rewrite Hfs. by destruct (caught e).
Qed.




(** X6: what the diagnostic stream holds at the end of a run.  With exit
    status 3 it holds one line, which tells that no manifest was found or
    names the error of opening the archive; with exit status 0 or 2 it
    holds one warning for each recognized member that fails to decode, in
    the locator's order, and nothing else; and when an exception escapes it
    holds the warnings issued so far. *)
Theorem run_diagnostics (fs : string → open_result) (ipa_path : string)
    (filter_domain : option string) (json_mode : bool) (color_mode : string) :
  let err := (run fs ipa_path filter_domain json_mode color_mode).1 in
  let rc := (run fs ipa_path filter_domain json_mode color_mode).2 in
  (rc = Exit 3 →
     (err = [InfoPlistNotFound] ∧ ∃ z, fs ipa_path = Opened z) ∨
     (∃ e, err = [ErrorOpeningIPA e] ∧ fs ipa_path = OpenRaises e)) ∧
  (rc = Exit 0 ∨ rc = Exit 2 →
     ∃ z, fs ipa_path = Opened z ∧
          err = warnings z (find_all_info_plists (namelist z))) ∧
  (∀ e, rc = Uncaught e →
     (err = [] ∧ fs ipa_path = OpenRaises e) ∨
     (∃ z, fs ipa_path = Opened z ∧
           err `prefix_of` warnings z (find_all_info_plists (namelist z)))).
Proof.
  cbv zeta.
  pose proof (run_cases fs ipa_path filter_domain json_mode color_mode) as H.
  destruct (fs ipa_path) as [z|e0] eqn:Hfs.
  - destruct H as [[_ ->]|[(_ & es & _ & ->)|(_ & e & w & _ & Hw & ->)]];
      cbn [fst snd].
    + split_and!; [|by intros [|]|done].
      intros _. left. split; [done|by exists z].
    + destruct (verdict_cases filter_domain json_mode es) as [-> |[-> | ->]];
        (split_and!; [done| |]).
      * intros _. by exists z.
      * done.
      * intros _. by exists z.
      * done.
      * by intros [|].
      * intros e' _. right. by exists z.
    + split_and!; [done|by intros [|]|].
      intros e' _. right. by exists z.
  - rewrite H. destruct (caught e0); cbn [fst snd].
    + split_and!; [|by intros [|]|done].
      intros _. right. by exists e0.
    + split_and!; [done|by intros [|]|].
      intros e' [= <-]. by left.
Qed.

Lemma run_diagnostics_witness :
  ∃ z, (λ _ : string, Opened all_corrupt) "app.ipa" = Opened z ∧
       (run (λ _, Opened all_corrupt) "app.ipa" None false "always").1
       = warnings z (find_all_info_plists (namelist z)).
Proof.
  refine (proj1 (proj2 (run_diagnostics (λ _, Opened all_corrupt) "app.ipa"
                          None false "always")) _).
  left. vm_compute. reflexivity.
Defined.

Lemma entries_Raise_intro z paths p pl e :
  p ∈ paths → parse_plist z p = Decoded pl → summarize_pl pl = Raise e →
  ∃ e', entries z paths = Raise e'.
Proof.
  intros Hp Hpl Hs. destruct (entries z paths) as [es|e'] eqn:Hes; [|by eexists].
  destruct (entries_Ok_all _ _ _ _ _ Hes Hp Hpl) as [s Hs']. congruence.
Qed.

Lemma json_dumps_ok_false (results : list entry) :
  json_dumps_ok results = false ↔
  ∃ r, r ∈ results ∧ json_ok_summary (summary_of r) = false.
Proof.
  unfold json_dumps_ok. induction results as [|r results IH]; simpl.
  - split; [done|]. by intros (r & ?%elem_of_nil & _).
  - rewrite andb_false_iff, IH. split.
    + intros [H|(r' & Hr' & H)]; [exists r; split; [by left|done]|].
      exists r'. split; [by right|done].
    + intros (r' & [->|Hr']%elem_of_cons & H); [by left|].
      right. by exists r'.
Qed.

Lemma verdict_TypeError (filter_domain : option string) (json_mode : bool) es e :
  verdict filter_domain json_mode es = Uncaught e ↔
  e = TypeError ∧ json_mode = true ∧
  json_dumps_ok (apply_filter filter_domain es) = false.
Proof.
  unfold verdict. cbv zeta.
  destruct json_mode, (json_dumps_ok (apply_filter filter_domain es)); simpl;
    (split; [|by intros (-> & ? & ?)]);
    try (by destruct (insecure _)).
  by intros [= <-].
Qed.

(** X7: an exception escapes from [run] in three cases only: opening the
    archive raised an error other than the two that are caught, which is
    then the exception; or some recognized member decodes to a tree on
    which the evaluator raises, and the exception is [AttributeError]; or,
    in JSON mode, every decoded manifest was evaluated and a summary that
    is left after filtering holds a value that [json.dumps] rejects, and
    the exception is [TypeError]. *)
Theorem run_uncaught_iff (fs : string → open_result) (ipa_path : string)
    (filter_domain : option string) (json_mode : bool) (color_mode : string)
    (e : exn) :
  (run fs ipa_path filter_domain json_mode color_mode).2 = Uncaught e ↔
  (fs ipa_path = OpenRaises e ∧ caught e = false) ∨
  (e = AttributeError ∧
   ∃ z p pl, fs ipa_path = Opened z ∧ p ∈ namelist z ∧ matches_any p = true ∧
             parse_plist z p = Decoded pl ∧
             summarize_pl pl = Raise AttributeError) ∨
  (e = TypeError ∧ json_mode = true ∧
   ∃ z es r, fs ipa_path = Opened z ∧
             entries z (find_all_info_plists (namelist z)) = Ok es ∧
             r ∈ apply_filter filter_domain es ∧
             json_ok_summary (summary_of r) = false).
Proof.
  pose proof (run_cases fs ipa_path filter_domain json_mode color_mode) as H.
  destruct (fs ipa_path) as [z|e0] eqn:Hfs.
  - cbv zeta in H.
    destruct H as [[Hnil ->]|[(_ & es & Hes & ->)|(_ & e' & w & Hes & _ & ->)]];
      cbn [snd].
    + split; [done|].
      intros [[[=] _]|[(_ & z' & p & pl & [= <-] & Hp & Hm & _)
                      |(_ & _ & z' & es & r & [= <-] & Hes & Hr & _)]].
      * assert (p ∈ find_all_info_plists (namelist z)) as Hin
          by by apply elem_of_find_all_info_plists.
        rewrite Hnil in Hin. by apply elem_of_nil in Hin.
      * rewrite Hnil in Hes. injection Hes as <-.
        unfold apply_filter in Hr.
        destruct (filter_given filter_domain), filter_domain;
          by apply elem_of_nil in Hr.
    + rewrite verdict_TypeError, json_dumps_ok_false. split.
      * intros (-> & Hj & r & Hr & Hbad). right. right.
        split_and!; [done..|]. by exists z, es, r.
      * intros [[[=] _]|[(_ & z' & p & pl & [= <-] & Hp & Hm & Hpl & Hs)
                        |(-> & Hj & z' & es' & r & [= <-] & Hes' & Hr & Hbad)]].
        -- assert (p ∈ find_all_info_plists (namelist z)) as Hin
             by by apply elem_of_find_all_info_plists.
           destruct (entries_Ok_all _ _ _ _ _ Hes Hin Hpl) as [s Hs'].
           congruence.
        -- rewrite Hes in Hes'. injection Hes' as <-.
           split_and!; [done..|]. by exists r.
    + split.
      * intros [= <-]. right. left. split; [done|].
        apply entries_Raise in Hes as (p & pl & Hin & Hpl & Hs).
        pose proof (summarize_pl_raises_AttributeError _ _ Hs) as ->.
        apply elem_of_find_all_info_plists in Hin as [Hin Hm].
        by exists z, p, pl.
      * intros [[[=] _]|[[-> _]|(_ & _ & z' & es & r & [= <-] & Hes' & _)]];
          [done|congruence].
  - rewrite H. split.
    + destruct (caught e0) eqn:Hc; cbn [snd]; [done|].
      intros [= <-]. by left.
    + intros [[[= <-] ->]|[(_ & z & p & pl & [=] & _)
                          |(_ & _ & z & es & r & [=] & _)]]. done.
Qed.

Lemma run_uncaught_iff_witness :
  (run (fs_single tree_array_root) "app.ipa" None false "always").2
  = Uncaught AttributeError.
Proof.
  apply (proj2 (run_uncaught_iff (fs_single tree_array_root) "app.ipa"
                  None false "always" AttributeError)).
  right. left. split; [reflexivity|].
  exists (single_manifest tree_array_root), "Payload/App.app/Info.plist",
    tree_array_root.
  split_and!; [reflexivity|by left|by vm_compute|reflexivity|reflexivity].
Defined.

(** A date under a copied key: the text mode ends with a verdict, the JSON
    mode with [TypeError]. *)
Example run_json_mode_date :
  (run (fs_single (VDict tree_date_flag)) "app.ipa" None false "always").2
  = Exit 0 ∧
  (run (fs_single (VDict tree_date_flag)) "app.ipa" None true "always").2
  = Uncaught TypeError.
Proof. split; vm_compute; reflexivity. Qed.


Lemma filter_by_name_at_most_one (l : list row) (f : string) :
  NoDup (domain <$> l) →
  (length (List.filter (λ d, String.eqb (domain d) f) l) ≤ 1)%nat.
Proof.
  induction l as [|x l IH]; csimpl; [lia|].
  intros [Hx Hnd]%NoDup_cons. specialize (IH Hnd).
  destruct (String.eqb (domain x) f) eqn:Hxf; [|done].
  apply String.eqb_eq in Hxf. simpl.
  destruct (List.filter _ l) as [|y l'] eqn:Hfl; [simpl; lia|].
  assert (y ∈ List.filter (λ d, String.eqb (domain d) f) l) as Hy
    by (rewrite Hfl; by left).
  apply list_filter_elem_of in Hy as [Hy Hyf]. apply String.eqb_eq in Hyf.
  destruct Hx. apply list_elem_of_fmap. exists y. split; [congruence|done].
Qed.

(** X9: filtering an entry by a domain name keeps the entry, its path and
    its bundle-wide flags, and leaves of its records exactly the ones with
    that name, which is at most one record; filtering the results keeps
    the number of entries and their paths. *)
Theorem filter_keeps_at_most_one_record
    (pl : value) (s : summary) (p f : string) :
  summarize_pl pl = Ok s →
  let r := filter_entry f {| info_plist := p; summary_of := s |} in
  info_plist r = p ∧
  top_level (summary_of r) = top_level s ∧
  (∀ d, d ∈ domains (summary_of r) ↔ d ∈ domains s ∧ domain d = f) ∧
  (length (domains (summary_of r)) ≤ 1)%nat ∧
  (∀ filter_domain results,
     length (apply_filter filter_domain results) = length results ∧
     info_plist <$> apply_filter filter_domain results
     = info_plist <$> results).
Proof.
  intros Hs. cbv zeta. unfold filter_entry. cbn.
  split_and!; try done.
  - intros d. rewrite list_filter_elem_of. by rewrite String.eqb_eq.
  - apply filter_by_name_at_most_one.
    by apply (domains_strictly_sorted_aux pl).
  - intros filter_domain results. unfold apply_filter.
    destruct (filter_given filter_domain), filter_domain as [g|]; try done.
    split; [by rewrite length_map|].
    induction results as [|r results IH]; [done|]. csimpl. by rewrite <- IH.
Qed.

Lemma filter_keeps_at_most_one_record_witness :
  (length (domains (summary_of (filter_entry "b.example"
     {| info_plist := "Payload/App.app/Info.plist";
        summary_of := summary_two_domains |}))) ≤ 1)%nat.
Proof.
  refine (proj1 (proj2 (proj2 (proj2 (filter_keeps_at_most_one_record
    (VDict tree_two_domains) summary_two_domains
    "Payload/App.app/Info.plist" "b.example" _))))).
  vm_compute. reflexivity.
Defined.

Lemma elem_of_apply_filter (filter_domain : option string) es r' :
  r' ∈ apply_filter filter_domain es ↔
  ∃ r, r ∈ es ∧
       r' = if filter_given filter_domain
            then match filter_domain with
                 | Some f => filter_entry f r
                 | None => r
                 end
            else r.
Proof.
  unfold apply_filter.
  destruct (filter_given filter_domain), filter_domain as [f|];
    try (split; [intros ?; by exists r'|by intros (r & ? & ->)]).
  rewrite list_elem_of_In, in_map_iff. split.
  - intros (r & <- & Hr%list_elem_of_In). by exists r.
  - intros (r & Hr & ->). exists r. by rewrite <- list_elem_of_In.
Qed.

(** The end of the run looks at the results as a set. *)
Lemma verdict_ext (filter_domain : option string) (json_mode : bool) es1 es2 :
  (∀ r, r ∈ es1 ↔ r ∈ es2) →
  verdict filter_domain json_mode es1 = verdict filter_domain json_mode es2.
Proof.
  intros H.
  assert (∀ r, r ∈ apply_filter filter_domain es1 ↔
               r ∈ apply_filter filter_domain es2) as Hf.
  { intros r. rewrite !elem_of_apply_filter. by setoid_rewrite H. }
  assert (insecure (apply_filter filter_domain es1)
          = insecure (apply_filter filter_domain es2)) as Hi.
  { apply eq_true_iff_eq. rewrite !insecure_spec. by setoid_rewrite Hf. }
  assert (json_dumps_ok (apply_filter filter_domain es1)
          = json_dumps_ok (apply_filter filter_domain es2)) as Hj.
  { pose proof (json_dumps_ok_false (apply_filter filter_domain es1)) as H1.
    pose proof (json_dumps_ok_false (apply_filter filter_domain es2)) as H2.
    setoid_rewrite Hf in H1.
    destruct (json_dumps_ok (apply_filter filter_domain es1)),
      (json_dumps_ok (apply_filter filter_domain es2)); try done.
    - by destruct (proj2 H1 (proj1 H2 eq_refl)).
    - by destruct (proj2 H2 (proj1 H1 eq_refl)). }
  unfold verdict. cbv zeta. by rewrite Hi, Hj.
Qed.

(** X10: the exit status does not depend on the order of the archive's
    members nor on a member being listed more than once: two archives with
    the same member names and the same member contents end alike. *)
Theorem exit_status_ignores_member_order (z1 z2 : archive) (ipa_path : string)
    (filter_domain : option string) (json_mode : bool) (color_mode : string) :
  (∀ p, p ∈ namelist z1 ↔ p ∈ namelist z2) →
  (∀ p, parse_plist z1 p = parse_plist z2 p) →
  (run (λ _, Opened z1) ipa_path filter_domain json_mode color_mode).2
  = (run (λ _, Opened z2) ipa_path filter_domain json_mode color_mode).2.
Proof.
  intros Hnames Hparse.
  assert (∀ p, p ∈ find_all_info_plists (namelist z1) ↔
               p ∈ find_all_info_plists (namelist z2)) as Hpaths.
  { intros p. by rewrite !elem_of_find_all_info_plists, Hnames. }
  assert (find_all_info_plists (namelist z1) = [] ↔
          find_all_info_plists (namelist z2) = []) as Hnil.
  { rewrite !find_all_info_plists_nil. by setoid_rewrite Hnames. }
  pose proof (run_cases (λ _, Opened z1) ipa_path filter_domain json_mode
                color_mode) as H1.
  pose proof (run_cases (λ _, Opened z2) ipa_path filter_domain json_mode
                color_mode) as H2.
  cbv beta zeta in H1, H2.
  destruct H1 as [[Hn1 ->]|[(Hne1 & es1 & Hes1 & ->)|(Hne1 & e1 & w1 & Hes1 & _ & ->)]].
  - apply Hnil in Hn1.
    by destruct H2 as [[_ ->]|[(? & _)|(? & _)]].
  - destruct H2 as [[Hn2 _]|[(_ & es2 & Hes2 & ->)|(_ & e2 & w2 & Hes2 & _)]].
    + by apply Hnil in Hn2.
    + cbn [snd]. apply verdict_ext. intros r.
      rewrite (entries_elem_of _ _ _ _ Hes1), (entries_elem_of _ _ _ _ Hes2).
      by rewrite Hpaths, Hparse.
    + apply entries_Raise in Hes2 as (p & pl & Hp & Hpl & Hs).
      apply Hpaths in Hp. rewrite <- Hparse in Hpl.
      destruct (entries_Ok_all _ _ _ _ _ Hes1 Hp Hpl) as [s Hs']. congruence.
  - destruct H2 as [[Hn2 _]|[(_ & es2 & Hes2 & _)|(_ & e2 & w2 & _ & _ & ->)]].
    + by apply Hnil in Hn2.
    + apply entries_Raise in Hes1 as (p & pl & Hp & Hpl & Hs).
      apply Hpaths in Hp. rewrite Hparse in Hpl.
      destruct (entries_Ok_all _ _ _ _ _ Hes2 Hp Hpl) as [s Hs']. congruence.
    + done.
Qed.

Lemma exit_status_ignores_member_order_witness :
  (run (λ _, Opened one_corrupt_of_three) "app.ipa" None false "always").2
  = (run (λ _, Opened one_corrupt_of_three_shuffled) "app.ipa" None false
       "always").2.
Proof.
  apply exit_status_ignores_member_order.
  - intros p. unfold one_corrupt_of_three, one_corrupt_of_three_shuffled.
    cbn [namelist]. rewrite !elem_of_cons, !elem_of_nil. tauto.
  - reflexivity.
Defined.

(** * Further properties of the locator *)

(** The loop keeps in [seen] the elements of [ordered]. *)
Lemma dedup_loop_seen (l : list string) :
  ∀ (seen : gset string) (ordered : list string),
    (∀ x, x ∈ seen ↔ x ∈ ordered) →
    ∀ x, x ∈ (foldl dedup_step (seen, ordered) l).1
       ↔ x ∈ (foldl dedup_step (seen, ordered) l).2.
Proof.
  induction l as [|y l IH]; intros seen ordered Hseen; simpl; [done|].
  unfold dedup_step at 2 4. simpl.
  destruct (decide (y ∈ seen)); [by apply IH|]. apply IH.
  intros x. rewrite elem_of_union, elem_of_singleton, elem_of_app,
    list_elem_of_singleton. by rewrite Hseen.
Qed.

Lemma dedup_loop_NoDup (l : list string) :
  ∀ (seen : gset string) (ordered : list string),
    (∀ x, x ∈ seen ↔ x ∈ ordered) → NoDup (ordered ++ l) →
    (foldl dedup_step (seen, ordered) l).2 = ordered ++ l.
Proof.
  induction l as [|x l IH]; intros seen ordered Hseen Hnd; simpl.
  - by rewrite app_nil_r.
  - unfold dedup_step at 2. simpl.
    assert (x ∉ ordered) as Hx.
    { apply NoDup_app in Hnd as (_ & Hno & _). intros Hin.
      apply (Hno x Hin). by left. }
    destruct (decide (x ∈ seen)) as [Hs|_]; [by apply Hseen in Hs|].
    rewrite IH.
    + by rewrite <- app_assoc.
    + intros y. rewrite elem_of_union, elem_of_singleton, elem_of_app,
        list_elem_of_singleton. by rewrite Hseen.
    + by rewrite <- app_assoc.
Qed.

Lemma list_filter_all {A} (P : A → bool) (l : list A) :
  (∀ x, x ∈ l → P x = true) → List.filter P l = l.
Proof.
  induction l as [|x l IH]; intros H; simpl; [done|].
  rewrite (H x) by by left. rewrite IH; [done|]. intros y Hy. apply H. by right.
Qed.

(** X11: the locator is idempotent: run on its own result it returns that
    result. *)
Theorem find_all_info_plists_idempotent (names : list string) :
  find_all_info_plists (find_all_info_plists names)
  = find_all_info_plists names.
Proof.
  destruct (find_all_info_plists_spec names) as (Hnd & Hin & _).
  unfold find_all_info_plists at 1. cbv zeta.
  rewrite list_filter_all by (intros x Hx; by apply Hin in Hx as [_ ?]).
  apply (dedup_loop_NoDup _ ∅ []); [|done].
  intros x. by rewrite elem_of_empty, elem_of_nil.
Qed.

(** X12: removing members from the archive and removing them from the
    locator's result come to the same, for every choice of the members to
    keep. *)
Theorem find_all_info_plists_commutes_with_removal
    (keep : string → bool) (names : list string) :
  find_all_info_plists (List.filter keep names)
  = List.filter keep (find_all_info_plists names).
Proof. apply find_all_info_plists_filter. Qed.

(** The loop started from the paths [base] already seen gives [base]
    followed by what the loop started afresh gives, less the paths of
    [base]. *)
Lemma dedup_loop_from (base : list string) (l : list string) :
  ∀ (seen' : gset string) (ord' : list string)
    (seen : gset string) (ord : list string),
    (∀ x, x ∈ seen' ↔ x ∈ ord') →
    (∀ x, x ∈ seen ↔ x ∈ base ∨ x ∈ ord') →
    ord = base ++ List.filter (λ p, bool_decide (p ∉ base)) ord' →
    (foldl dedup_step (seen, ord) l).2
    = base ++ List.filter (λ p, bool_decide (p ∉ base))
                (foldl dedup_step (seen', ord') l).2.
Proof.
  induction l as [|x l IH]; intros seen' ord' seen ord Hs' Hs Hord; simpl;
    [done|].
  rewrite (surjective_pairing (dedup_step (seen, ord) x)),
    (surjective_pairing (dedup_step (seen', ord') x)).
  apply IH; unfold dedup_step; simpl.
  - intros y. destruct (decide (x ∈ seen')); simpl; [done|].
    rewrite elem_of_union, elem_of_singleton, elem_of_app,
      list_elem_of_singleton. by rewrite Hs'.
  - intros y.
    destruct (decide (x ∈ seen)) as [Hx|Hx],
      (decide (x ∈ seen')) as [Hx'|Hx']; simpl.
    + done.
    + rewrite Hs, elem_of_app, list_elem_of_singleton.
      apply Hs in Hx as [Hx|Hx]; [|by apply Hs' in Hx].
      split; [intros [?|?]; by auto|]. intros [?|[?| ->]]; by auto.
    + destruct Hx. apply Hs. right. by apply Hs'.
    + rewrite elem_of_union, elem_of_singleton, Hs, elem_of_app,
        list_elem_of_singleton. tauto.
  - destruct (decide (x ∈ seen)) as [Hx|Hx],
      (decide (x ∈ seen')) as [Hx'|Hx']; simpl.
    + done.
    + apply Hs in Hx as [Hx|Hx]; [|by apply Hs' in Hx].
      rewrite List.filter_app. simpl.
      rewrite bool_decide_eq_false_2 by (by intros ?). by rewrite app_nil_r.
    + destruct Hx. apply Hs. right. by apply Hs'.
    + rewrite List.filter_app. simpl.
      rewrite bool_decide_eq_true_2
        by (intros Hb; apply Hx, Hs; by left).
      by rewrite Hord, <- app_assoc.
Qed.

(** X13: the locator on an archive list continued by further members
    returns what it returns on the list, followed by what it returns on the
    further members less the paths already found; so adding members at the
    end of an archive leaves the earlier findings in place, as a prefix. *)
Theorem find_all_info_plists_app (names more : list string) :
  find_all_info_plists (names ++ more)
  = find_all_info_plists names
    ++ List.filter (λ p, bool_decide (p ∉ find_all_info_plists names))
         (find_all_info_plists more) ∧
  find_all_info_plists names `prefix_of` find_all_info_plists (names ++ more).
Proof.
  assert (find_all_info_plists (names ++ more)
          = find_all_info_plists names
            ++ List.filter (λ p, bool_decide (p ∉ find_all_info_plists names))
                 (find_all_info_plists more)) as H.
  { unfold find_all_info_plists. cbv zeta.
    rewrite List.filter_app, foldl_app.
    destruct (dedup_loop_spec (List.filter matches_any names) ∅ [])
      as (new & Hnew & _ & Hin & _).
    { intros x. by rewrite elem_of_empty, elem_of_nil. }
    simpl in Hnew.
    destruct (foldl dedup_step (∅, []) (List.filter matches_any names))
      as [seen ord] eqn:Hst. simpl in Hnew. subst ord.
    assert (∀ x, x ∈ seen ↔ x ∈ new) as Hseen.
    { pose proof (dedup_loop_seen (List.filter matches_any names) ∅ []) as Hinv.
      rewrite Hst in Hinv. apply Hinv.
      intros x. by rewrite elem_of_empty, elem_of_nil. }
    simpl. apply (dedup_loop_from new _ ∅ []).
    - intros x. by rewrite elem_of_empty, elem_of_nil.
    - intros x. rewrite Hseen, elem_of_nil. tauto.
    - simpl. by rewrite app_nil_r. }
  split; [done|]. rewrite H. by eexists.
Qed.

(** X14: the second pattern adds nothing to the first: a name that
    [Payload/**/*.app/Info.plist] accepts is accepted by
    [Payload/*.app/Info.plist], so the locator's test is the one of the
    first and third patterns. *)
Theorem second_pattern_is_covered (n : string) :
  (fnmatch n "Payload/**/*.app/Info.plist" = true →
   fnmatch n "Payload/*.app/Info.plist" = true) ∧
  matches_any n
  = fnmatch n "Payload/*.app/Info.plist"
    || fnmatch n "Payload/**/*.appex/Info.plist".
Proof.
  set (p1 := "Payload/*.app/Info.plist").
  set (p2 := "Payload/**/*.app/Info.plist").
  set (p3 := "Payload/**/*.appex/Info.plist").
  assert (fnmatch n p2 = true → fnmatch n p1 = true) as H.
  { intros H2. apply fnmatch_app_pattern.
    apply (fnmatch_nested_pattern ".app/Info.plist" n eq_refl) in H2
      as (a & c & ->).
    exists (a +:+ "/" +:+ c). by rewrite !string_app_assoc. }
  split; [done|].
  change (matches_any n)
    with (fnmatch n p1 || (fnmatch n p2 || (fnmatch n p3 || false))).
  rewrite orb_false_r.
  generalize dependent (fnmatch n p2). generalize (fnmatch n p1).
  generalize (fnmatch n p3).
  intros b3 b1 b2 Hb. destruct b1, b2, b3; try done; by specialize (Hb eq_refl).
Qed.

Lemma second_pattern_is_covered_witness :
  fnmatch "Payload/a/b.app/Info.plist" "Payload/*.app/Info.plist" = true.
Proof.
  apply (proj1 (second_pattern_is_covered "Payload/a/b.app/Info.plist")).
  vm_compute. reflexivity.
Defined.

(** * Properties of the presentation *)

(** X15: the rendering of a flag tells three cases apart and no more: it
    is the rendering of [True] for an explicit true only, the rendering of
    [False] for an explicit false only, and the rendering of [None] for
    everything else, so a value that is not a boolean shows like an absent
    flag, also when the verdict counts it as true. *)
Theorem c_bool_three_valued (v : option value) (use_color : bool) :
  (c_bool v use_color = c_bool (Some (VBool true)) use_color ↔
   v = Some (VBool true)) ∧
  (c_bool v use_color = c_bool (Some (VBool false)) use_color ↔
   v = Some (VBool false)) ∧
  (c_bool v use_color = c_bool None use_color ↔
   ∀ b, v ≠ Some (VBool b)) ∧
  (∀ w, (∀ b, w ≠ VBool b) → truthy w = true →
        c_bool (Some w) use_color = c_bool None use_color ∧
        py_bool (Some w) = true).
Proof.
  split_and!.
  - split; [|by intros ->].
    destruct v as [[[]| | | | | | | |]|], use_color; by vm_compute.
  - split; [|by intros ->].
    destruct v as [[[]| | | | | | | |]|], use_color; by vm_compute.
  - split.
    + destruct v as [[[]| | | | | | | |]|], use_color; try by vm_compute.
    + intros H. destruct v as [[b| | | | | | | |]|]; try done. by destruct (H b).
  - intros w Hw Ht. split; [|done].
    destruct w as [b| | | | | | | |]; try done. by destruct (Hw b).
Qed.

Lemma c_bool_three_valued_witness :
  c_bool (Some (VStr "NO")) false = c_bool None false ∧
  py_bool (Some (VStr "NO")) = true.
Proof.
  apply (proj2 (proj2 (proj2 (c_bool_three_valued None false)))).
  - intros b. discriminate.
  - vm_compute. reflexivity.
Defined.

Lemma has_esc_app (a b : string) : has_esc (a +:+ b) = has_esc a || has_esc b.
Proof.
  induction a as [|c a IH]; [done|].
  rewrite string_app_cons. simpl. by rewrite IH, orb_assoc.
Qed.

Lemma has_esc_c_bool_plain (v : option value) : has_esc (c_bool v false) = false.
Proof. by destruct v as [[[]| | | | | | | |]|]. Qed.

Lemma wants_color_off (mode : string) (isatty : bool) (TERM : option string) :
  mode = "never" ∨
  (mode ≠ "always" ∧ (isatty = false ∨ TERM = None ∨ TERM = Some "dumb")) →
  wants_color mode isatty TERM = false.
Proof.
  unfold wants_color. intros [->|[Hm H]]; [done|].
  rewrite (proj2 (String.eqb_neq mode "always") Hm).
  destruct (String.eqb mode "never"); [done|].
  destruct H as [->|[->| ->]]; [done| |]; by rewrite ?andb_false_r.
Qed.

Lemma elem_of_concat_map {A B} (f : A → list B) (l : list A) (y : B) :
  y ∈ concat (List.map f l) ↔ ∃ x, x ∈ l ∧ y ∈ f x.
Proof.
  rewrite list_elem_of_In, in_concat. split.
  - intros (ys & (x & <- & Hx)%in_map_iff & Hy).
    exists x. by rewrite !list_elem_of_In.
  - intros (x & Hx & Hy). exists (f x). rewrite <- !list_elem_of_In.
    split; [|done]. apply list_elem_of_In, in_map. by apply list_elem_of_In.
Qed.

(** The lines of a manifest's text after the bundle-wide flags. *)
Lemma elem_of_report_entry_tail py_str use_color (ds : list row) line :
  line ∈ match ds with
         | [] => [ "  (No NSExceptionDomains or filtered by --domain)" +:+ LF ]
         | d0 :: ds' =>
             H "=== Domain exceptions ===" use_color
             :: concat (List.map (report_domain py_str use_color) (d0 :: ds'))
         end →
  line = "  (No NSExceptionDomains or filtered by --domain)" +:+ LF ∨
  line = H "=== Domain exceptions ===" use_color ∨
  ∃ d, d ∈ ds ∧ line ∈ report_domain py_str use_color d.
Proof.
  destruct ds as [|d0 ds].
  - intros ->%list_elem_of_singleton. by left.
  - intros [->|Hl]%elem_of_cons; [by auto|].
    right. right. by apply elem_of_concat_map in Hl.
Qed.

(** X16: with colours off, which is the case for the mode [never] and,
    unless the mode is [always], when the output is no terminal or [TERM]
    is unset or [dumb], no line of the text report holds an escape
    character, provided none comes with the archive path, the member
    paths, the domain names or the rendering of a TLS version. *)
Theorem plain_report_has_no_escape (py_str : value → string)
    (mode : string) (isatty : bool) (TERM : option string)
    (ipa_path : string) (results : list entry) :
  mode = "never" ∨
  (mode ≠ "always" ∧ (isatty = false ∨ TERM = None ∨ TERM = Some "dumb")) →
  has_esc ipa_path = false →
  (∀ r, r ∈ results →
     has_esc (info_plist r) = false ∧
     ∀ d, d ∈ domains (summary_of r) →
       has_esc (domain d) = false ∧
       ∀ v, MinimumTLSVersionEffective d = Some v →
            has_esc (py_str v) = false) →
  ∀ line,
    line ∈ text_report py_str (wants_color mode isatty TERM) ipa_path results →
    has_esc line = false.
Proof.
  intros Hmode Hipa Hres line. rewrite (wants_color_off _ _ _ Hmode).
  unfold text_report. rewrite elem_of_cons, elem_of_concat_map.
  intros [->|(r & Hr & Hline)].
  { unfold H, c_txt. by rewrite has_esc_app, Hipa. }
  destruct (Hres r Hr) as [Hpath Hdoms].
  unfold report_entry in Hline.
  rewrite !elem_of_app, !elem_of_cons, !elem_of_nil in Hline.
  destruct Hline as [[->|[->|[]]]|[Htop|[[->|[]]|Hd]]].
  - unfold H, c_txt. by rewrite has_esc_app, Hpath.
  - done.
  - unfold report_top in Htop. cbn [List.map] in Htop.
    rewrite !elem_of_cons, elem_of_nil in Htop.
    destruct Htop as [->|[->|[->|[]]]]; cbn [fst snd];
      unfold K, c_txt; by rewrite !has_esc_app, has_esc_c_bool_plain.
  - done.
  - apply elem_of_report_entry_tail in Hd as [->|[->|(d & Hdin & Hline)]];
      [done|done|].
    destruct (Hdoms d Hdin) as [Hname Htls].
    unfold report_domain in Hline. cbv zeta in Hline.
    rewrite !elem_of_cons, elem_of_nil in Hline.
    destruct Hline as [->|[->|[->|[->|[->|[->|[->|[->|[]]]]]]]]];
      unfold K, DOM, c_txt;
      rewrite ?has_esc_app, ?has_esc_c_bool_plain, ?Hname; try done.
    + destruct (MinimumTLSVersionEffective d) as [v|] eqn:Hv; [|done].
      destruct (truthy v); [|done]. by rewrite (Htls v eq_refl).
    + by destruct (effective_http_permitted d).
Qed.

Lemma plain_report_has_no_escape_witness :
  has_esc "[example.com]" = false.
Proof.
  refine (plain_report_has_no_escape str_of_example "auto" false (Some "xterm")
            "app.ipa"
            [{| info_plist := "Payload/App.app/Info.plist";
                summary_of := summary_http_domain |}] _ _ _
            "[example.com]" _).
  - right. split; [discriminate|]. by left.
  - reflexivity.
  - intros r ->%list_elem_of_singleton. split; [reflexivity|].
    intros d ->%list_elem_of_singleton. split; [reflexivity|].
    intros v Hv. vm_compute in Hv. discriminate Hv.
  - vm_compute. do 8 right. left.
Defined.

Ltac line_differs H := exfalso; cbv in H; discriminate H.

Lemma permitted_line_in_report_domain py_str use_color (d : row) :
  permitted_line use_color ∈ report_domain py_str use_color d ↔
  effective_http_permitted d = true.
Proof.
  unfold report_domain. cbv zeta.
  rewrite !elem_of_cons, elem_of_nil. split.
  - intros [E|[E|[E|[E|[E|[E|[E|[E|[]]]]]]]]];
      try (destruct use_color; line_differs E).
    destruct (effective_http_permitted d); [done|].
    destruct use_color; line_differs E.
  - intros ->. do 6 right. by left.
Qed.

Lemma permitted_line_in_report_entry py_str use_color (r : entry) :
  permitted_line use_color ∈ report_entry py_str use_color r ↔
  ∃ d, d ∈ domains (summary_of r) ∧ effective_http_permitted d = true.
Proof.
  split.
  - unfold report_entry.
    rewrite !elem_of_app, !elem_of_cons, !elem_of_nil.
    intros [[E|[E|[]]]|[Htop|[[E|[]]|Hd]]];
      try (destruct use_color; line_differs E).
    + unfold report_top in Htop. cbn [List.map] in Htop.
      rewrite !elem_of_cons, elem_of_nil in Htop.
      destruct Htop as [E|[E|[E|[]]]]; destruct use_color; line_differs E.
    + apply elem_of_report_entry_tail in Hd as [E|[E|(d & Hdin & Hline)]];
        try (destruct use_color; line_differs E).
      exists d. split; [done|]. by apply permitted_line_in_report_domain in Hline.
  - intros (d & Hd & He). unfold report_entry.
    rewrite !elem_of_app. do 3 right.
    destruct (domains (summary_of r)) as [|d0 ds] eqn:Hds.
    { by apply elem_of_nil in Hd. }
    right. apply elem_of_concat_map. exists d. split; [done|].
    by apply permitted_line_in_report_domain.
Qed.

Lemma permitted_line_in_text_report py_str use_color ipa_path results :
  permitted_line use_color ∈ text_report py_str use_color ipa_path results ↔
  insecure results = true.
Proof.
  unfold text_report. rewrite elem_of_cons, elem_of_concat_map, insecure_spec.
  split.
  - intros [E|(r & Hr & Hl)]; [destruct use_color; line_differs E|].
    apply permitted_line_in_report_entry in Hl as (d & Hd & He).
    by exists r, d.
  - intros (r & d & Hr & Hd & He). right. exists r. split; [done|].
    apply permitted_line_in_report_entry. by exists d.
Qed.

Lemma has_lf_app (a b : string) : has_lf (a +:+ b) = has_lf a || has_lf b.
Proof.
  induction a as [|c a IH]; [done|].
  rewrite string_app_cons. simpl. by rewrite IH, orb_assoc.
Qed.

Lemma has_lf_c_bool (v : option value) (use_color : bool) :
  has_lf (c_bool v use_color) = false.
Proof. by destruct v as [[[]| | | | | | | |]|], use_color. Qed.

Lemma split_lines_no_lf (s : string) : has_lf s = false → split_lines s = [s].
Proof.
  induction s as [|c s IH]; [done|]. simpl.
  destruct (Ascii.eqb c "010"); [done|]. intros Hs. by rewrite (IH Hs).
Qed.

Lemma split_lines_app_lf (a b : string) :
  split_lines (a +:+ LF +:+ b) = split_lines a ++ split_lines b.
Proof.
  induction a as [|c a IH]; [done|].
  rewrite string_app_cons. simpl. rewrite IH.
  destruct (Ascii.eqb c "010"); [done|].
  assert (split_lines a ≠ []) as Hne.
  { clear. destruct a as [|c a]; [done|]. simpl.
    destruct (Ascii.eqb c "010"); [done|]. by destruct (split_lines a). }
  by destruct (split_lines a).
Qed.

(** The lines that standard output shows are the lines of the arguments of
    the calls of [print], and the empty line after the last line feed. *)
Lemma elem_of_split_lines_stdout_text (x : string) (prints : list string) :
  x ∈ split_lines (stdout_text prints) ↔
  x = EmptyString ∨ ∃ p, p ∈ prints ∧ x ∈ split_lines p.
Proof.
  induction prints as [|p prints IH].
  - simpl. rewrite list_elem_of_singleton. split; [by left|].
    intros [->|(p & Hp & _)]; [done|]. by apply elem_of_nil in Hp.
  - cbn [stdout_text foldr]. fold (stdout_text prints).
    rewrite split_lines_app_lf, elem_of_app, IH. split.
    + intros [Hx|[->|(q & Hq & Hx)]].
      * right. exists p. split; [by left|done].
      * by left.
      * right. exists q. split; [by right|done].
    + intros [->|(q & [->|Hq]%elem_of_cons & Hx)].
      * right. by left.
      * by left.
      * right. right. by exists q.
Qed.

(** An argument of [print] in the text report holds no line feed, the note
    about an empty domain list apart, when none comes with the archive
    path, the member paths, the domain names or the rendering of a TLS
    version. *)
Lemma text_report_prints_lf (py_str : value → string) (use_color : bool)
    (ipa_path : string) (results : list entry) :
  has_lf ipa_path = false →
  (∀ r, r ∈ results →
     has_lf (info_plist r) = false ∧
     ∀ d, d ∈ domains (summary_of r) →
       has_lf (domain d) = false ∧
       ∀ v, MinimumTLSVersionEffective d = Some v → truthy v = true →
            has_lf (py_str v) = false) →
  ∀ p, p ∈ text_report py_str use_color ipa_path results →
       has_lf p = false ∨ p = no_domains_note +:+ LF.
Proof.
  intros Hipa Hres line.
  unfold text_report. rewrite elem_of_cons, elem_of_concat_map.
  intros [->|(r & Hr & Hline)].
  { left. unfold H, c_txt. destruct use_color; by rewrite ?has_lf_app, Hipa. }
  destruct (Hres r Hr) as [Hpath Hdoms].
  unfold report_entry in Hline.
  rewrite !elem_of_app, !elem_of_cons, !elem_of_nil in Hline.
  destruct Hline as [[->|[->|[]]]|[Htop|[[->|[]]|Hd]]].
  - left. unfold H, c_txt. destruct use_color; by rewrite ?has_lf_app, Hpath.
  - left. by destruct use_color.
  - left. unfold report_top in Htop. cbn [List.map] in Htop.
    rewrite !elem_of_cons, elem_of_nil in Htop.
    destruct Htop as [->|[->|[->|[]]]]; cbn [fst snd];
      unfold K, c_txt; destruct use_color;
      by rewrite !has_lf_app, has_lf_c_bool.
  - by left.
  - apply elem_of_report_entry_tail in Hd as [->|[->|(d & Hdin & Hline)]];
      [by right|left; by destruct use_color|].
    left. destruct (Hdoms d Hdin) as [Hname Htls].
    unfold report_domain in Hline. cbv zeta in Hline.
    rewrite !elem_of_cons, elem_of_nil in Hline.
    destruct Hline as [->|[->|[->|[->|[->|[->|[->|[->|[]]]]]]]]];
      unfold K, DOM, c_txt; destruct use_color;
      rewrite ?has_lf_app, ?has_lf_c_bool, ?Hname; try done.
    + destruct (MinimumTLSVersionEffective d) as [v|] eqn:Hv; [|done].
      destruct (truthy v) eqn:Ht; [|done].
      by rewrite !has_lf_app, (Htls v eq_refl Ht).
    + destruct (MinimumTLSVersionEffective d) as [v|] eqn:Hv; [|done].
      destruct (truthy v) eqn:Ht; [|done]. by rewrite (Htls v eq_refl Ht).
    + by destruct (effective_http_permitted d).
    + by destruct (effective_http_permitted d).
Qed.

(** Under the same proviso the line of an effective permission is among
    the lines that standard output shows exactly when some record of the
    results has the effective verdict true. *)
Lemma permitted_line_in_stdout (py_str : value → string) (use_color : bool)
    (ipa_path : string) (results : list entry) :
  has_lf ipa_path = false →
  (∀ r, r ∈ results →
     has_lf (info_plist r) = false ∧
     ∀ d, d ∈ domains (summary_of r) →
       has_lf (domain d) = false ∧
       ∀ v, MinimumTLSVersionEffective d = Some v → truthy v = true →
            has_lf (py_str v) = false) →
  permitted_line use_color
    ∈ split_lines (stdout_text (text_report py_str use_color ipa_path results))
  ↔ insecure results = true.
Proof.
  intros Hipa Hres.
  rewrite elem_of_split_lines_stdout_text,
    <- (permitted_line_in_text_report py_str use_color ipa_path results).
  assert (split_lines (permitted_line use_color) = [permitted_line use_color])
    as Hself by (by destruct use_color).
  split.
  - intros [E|(p & Hp & Hx)]; [destruct use_color; line_differs E|].
    destruct (text_report_prints_lf _ _ _ _ Hipa Hres p Hp) as [Hlf| ->].
    + rewrite (split_lines_no_lf _ Hlf) in Hx.
      by apply list_elem_of_singleton in Hx as ->.
    + change (split_lines (no_domains_note +:+ LF))
        with [no_domains_note; EmptyString] in Hx.
      rewrite !elem_of_cons, elem_of_nil in Hx.
      destruct Hx as [E|[E|[]]]; destruct use_color; line_differs E.
  - intros Hin. right. exists (permitted_line use_color). split; [done|].
    rewrite Hself. by left.
Qed.

(** The records that remain after the filter come from the members. *)
Lemma filtered_results_origin z paths es (filter_domain : option string) r' :
  entries z paths = Ok es →
  r' ∈ apply_filter filter_domain es →
  info_plist r' ∈ paths ∧
  ∃ pl s, parse_plist z (info_plist r') = Decoded pl ∧
          summarize_pl pl = Ok s ∧
          ∀ d, d ∈ domains (summary_of r') → d ∈ domains s.
Proof.
  intros Hes (r & Hr & ->)%elem_of_apply_filter.
  apply (entries_elem_of _ _ _ _ Hes) in Hr as (Hp & pl & Hpl & Hs).
  destruct (filter_given filter_domain); [destruct filter_domain as [f|]|];
    (split; [done|]); exists pl, (summary_of r); split_and!; try done.
  intros d. cbn. rewrite list_elem_of_In, filter_In, <- list_elem_of_In. tauto.
Qed.

(** X17: in text mode [run] prints its report exactly when it ends with
    exit status 0 or 2.  The exit status is 2 exactly when one of the
    calls of [print] has for argument the line that shows an effective
    HTTP permission as true; and when no line feed comes with the archive
    path, the paths of the recognized members, the domain names or the
    rendering of an effective TLS version, the exit status is 2 exactly
    when that line is one of the lines that standard output shows. *)
Theorem exit_status_2_iff_report_shows_permission (py_str : value → string)
    (fs : string → open_result) (ipa_path : string)
    (filter_domain : option string) (color_mode : string)
    (isatty : bool) (TERM : option string) :
  let rc := (run fs ipa_path filter_domain false color_mode).2 in
  let out :=
    run_report py_str fs ipa_path filter_domain color_mode isatty TERM in
  (is_Some out ↔ rc = Exit 0 ∨ rc = Exit 2) ∧
  (∀ prints, out = Some prints →
     rc = Exit 2 ↔
     permitted_line (wants_color color_mode isatty TERM) ∈ prints) ∧
  (has_lf ipa_path = false →
   (∀ z p, fs ipa_path = Opened z → p ∈ namelist z → matches_any p = true →
      has_lf p = false ∧
      ∀ pl s d, parse_plist z p = Decoded pl → summarize_pl pl = Ok s →
                d ∈ domains s →
        has_lf (domain d) = false ∧
        ∀ v, MinimumTLSVersionEffective d = Some v → truthy v = true →
             has_lf (py_str v) = false) →
   ∀ prints, out = Some prints →
     rc = Exit 2 ↔
     permitted_line (wants_color color_mode isatty TERM)
       ∈ split_lines (stdout_text prints)).
Proof.
  cbv zeta. unfold run, run_report.
  destruct (fs ipa_path) as [z|e] eqn:Hfs.
  - destruct (find_all_info_plists (namelist z)) as [|p0 paths] eqn:Hpaths.
    { split_and!; [|done|done]. split; [by intros [? ?]|by intros [|]]. }
    pose proof (parse_loop_entries z (p0 :: paths) [] []) as Hloop.
    destruct (parse_loop z (p0 :: paths) [] []) as [err [results|e]].
    + cbn [snd]. split_and!.
      * split; [|by eexists]. intros _.
        destruct (insecure _); by auto.
      * intros lines [= <-]. rewrite permitted_line_in_text_report.
        by destruct (insecure _).
      * intros Hipa Hmem lines [= <-].
        cbn [snd] in Hloop.
        destruct (entries z (p0 :: paths)) as [es|] eqn:Hes; [|done].
        cbn in Hloop. injection Hloop as ->.
        rewrite permitted_line_in_stdout; [by destruct (insecure _)|done|].
        intros r Hr.
        destruct (filtered_results_origin _ _ _ _ _ Hes Hr)
          as (Hp & pl & s & Hpl & Hs & Hsub).
        rewrite <- Hpaths in Hp.
        apply elem_of_find_all_info_plists in Hp as [Hp Hm].
        destruct (Hmem z _ eq_refl Hp Hm) as [Hlf Hd]. split; [done|].
        intros d Hdin. exact (Hd pl s d Hpl Hs (Hsub d Hdin)).
    + split_and!; [|done|done]. split; [by intros [? ?]|].
      destruct (caught e); by intros [|].
  - split_and!; [|done|done]. split; [by intros [? ?]|].
    destruct (caught e); by intros [|].
Qed.

Lemma exit_status_2_iff_report_shows_permission_witness :
  (run (fs_single (VDict tree_http_domain)) "app.ipa" None false "never").2
  = Exit 2.
Proof.
  destruct (exit_status_2_iff_report_shows_permission str_of_example
              (fs_single (VDict tree_http_domain)) "app.ipa" None "never"
              true (Some "xterm")) as (_ & _ & H).
  specialize (H eq_refl).
  assert (∀ z p, fs_single (VDict tree_http_domain) "app.ipa" = Opened z →
      p ∈ namelist z → matches_any p = true →
      has_lf p = false ∧
      ∀ pl s d, parse_plist z p = Decoded pl → summarize_pl pl = Ok s →
                d ∈ domains s →
        has_lf (domain d) = false ∧
        ∀ v, MinimumTLSVersionEffective d = Some v → truthy v = true →
             has_lf (str_of_example v) = false) as Hm.
  { intros z p [= <-] Hp _. cbn in Hp.
    apply list_elem_of_singleton in Hp as ->. split; [reflexivity|].
    intros pl s d Hpl Hs Hd.
    vm_compute in Hpl. injection Hpl as <-.
    vm_compute in Hs. injection Hs as <-.
    vm_compute in Hd.
    apply list_elem_of_singleton in Hd as ->. split; [reflexivity|].
    intros v Hv. vm_compute in Hv. discriminate Hv. }
  specialize (H Hm).
  refine (proj2 (H _ eq_refl) _).
  vm_compute. do 14 right. left.
Defined.

(** X18: a security section that holds a false value (an empty dict, an
    empty string, zero, false, an empty array) is read as if the key were
    absent, and gives the summary of a manifest that declares nothing; an
    exception-domains key that holds a false value is read as no exception
    domain. *)
Theorem false_section_is_no_section (m : gmap string value) (v : value) :
  truthy v = false →
  (m !! ATS = Some v → summarize_pl (VDict m) = Ok empty_summary) ∧
  (∀ ats, m !! ATS = Some (VDict ats) → ats !! EXC = Some v →
     summarize_pl (VDict m) = Ok {| top_level := tops ats; domains := [] |}).
Proof.
  intros Hv.
  assert (as_mapping (Some v) = Some ∅) as Hmap.
  { destruct v; simpl in *; rewrite ?Hv; try done.
    by rewrite (truthy_dict_false _ Hv). }
  split.
  - intros Hats. by rewrite summarize_pl_unfold, Hats, Hmap.
  - intros ats Hats Hexc.
    rewrite summarize_pl_unfold, Hats. cbn [as_mapping].
    by rewrite Hexc, Hmap.
Qed.

Lemma false_section_is_no_section_witness :
  summarize_pl (VDict {[ ATS := VStr "" ]}) = Ok empty_summary.
Proof.
  refine (proj1 (false_section_is_no_section {[ ATS := VStr "" ]} (VStr "") _)
            _).
  - reflexivity.
  - vm_compute. reflexivity.
Defined.
